(** * repack: line-transition repackaging -- index arithmetic and driver logic

    A shallow embedding of the pure-Python part of repack
    (repack/repack.py and repack/utils/utilities.py).

    Conventions.
    - Python integers (row indices, counts) are [Z].
    - Wavenumbers and temperatures that only take part in comparisons,
      differences and midpoints are [Q]: a finite double denotes a rational
      and the comparisons of the source are comparisons of those rationals.
    - The classifier uses [exp], [sqrt] and [pi]; it is modelled over [R].
    - A Python exception is a value of [exn]; [sys.exit(n)] raises
      [SystemExit n], as it does in Python. *)

From Stdlib Require Import ZArith QArith Qabs Qround List String Ascii Bool Lia.
From Stdlib Require Import Reals Psatz.
From Stdlib Require Import Sorted.
From Stdlib Require OrderedTypeEx.
Import ListNotations.

Local Open Scope Z_scope.

(** ** Exceptions and results *)

Inductive exn : Type :=
| ValueError
| KeyError
| IndexError
| AttributeError
| ZeroDivisionError
| OverflowError
| RecursionError
| UnboundLocalError
| SystemExit (code : Z).

Inductive result (A : Type) : Type :=
| Ok (a : A)
| Raise (e : exn).

Arguments Ok {A} a.
Arguments Raise {A} e.

Definition bind {A B : Type} (r : result A) (k : A -> result B) : result B :=
  match r with
  | Ok a => k a
  | Raise e => Raise e
  end.

Notation "x <- r ;; k" := (bind r (fun x => k))
  (at level 61, r at next level, right associativity).

(** Exit status of the interpreter: 0 when the program runs to its end,
    the code given to [sys.exit], and 1 for any other uncaught exception. *)
Definition exit_status {A : Type} (r : result A) : Z :=
  match r with
  | Ok _ => 0
  | Raise (SystemExit code) => code
  | Raise _ => 1
  end.

(** ** Numeric helpers *)

(** [int(x)] on a float: truncation toward zero. *)
Definition Qtrunc (q : Q) : Z := Z.quot (Qnum q) (Zpos (Qden q)).

Definition Qlt_bool (x y : Q) : bool := negb (Qle_bool y x).

(** ** Record source (class [lbl]) *)

(** The object keeps the file name, the measured row length, the number of
    rows, and the file itself.  Of the file the model keeps the wavenumber
    column: [wnrows] holds, for each row that can be read, the value that
    [getwn] decodes from it. *)
Record lbl : Type := mk_lbl {
  lblfile : string;
  llen    : Z;
  nlines  : Z;
  wnrows  : list Q
}.

(** [file.readline()]: the first line, terminator included. *)
Fixpoint readline (s : string) : string :=
  match s with
  | EmptyString => EmptyString
  | String c rest =>
      if Ascii.eqb c "010"%char then String c EmptyString
      else String c (readline rest)
  end.

Definition len (s : string) : Z := Z.of_nat (String.length s).

(** [lbl.__init__]: [llen = len(readline())], then
    [nlines = int(tell()/llen)] after seeking to the end.  The only failure
    is the division by a zero row length (an empty file). *)
Definition lbl_init (path : string) (content : string) (column : list Q)
  : result lbl :=
  let l := len (readline content) in
  let size := len content in
  if l =? 0 then Raise ZeroDivisionError
  else Ok (mk_lbl path l (Qtrunc (inject_Z size / inject_Z l)) column).

(** [getwn(index)]: seek to the row and decode.  A negative seek and a read
    past the end of the file (which yields the empty string) both end in
    [ValueError]. *)
Definition getwn (l : lbl) (index : Z) : result Q :=
  if index <? 0 then Raise ValueError
  else match nth_error (wnrows l) (Z.to_nat index) with
       | Some w => Ok w
       | None => Raise ValueError
       end.

(** [lbl.bs]: the recursion of the source, on a counter that bounds its
    depth; [bs] below starts it with a depth that is never exhausted. *)
Fixpoint bs_rec (depth : nat) (l : lbl) (val : Q) (lo hi : Z) : result Z :=
  w0 <- getwn l 0 ;;
  if Qle_bool val w0 then Ok 0 else
  wN <- getwn l (nlines l - 1) ;;
  if Qle_bool wN val then Ok (nlines l - 1) else
  if hi - lo <=? 1 then
    whi <- getwn l hi ;;
    wlo <- getwn l lo ;;
    if Qlt_bool (Qabs (val - whi)) (Qabs (val - wlo)) then Ok hi else Ok lo
  else
    match depth with
    | O => Raise RecursionError
    | S d =>
        let mid := Z.quot (hi + lo) 2 in
        wm <- getwn l mid ;;
        if Qlt_bool val wm then bs_rec d l val lo mid
        else bs_rec d l val mid hi
    end.

Definition bs (l : lbl) (val : Q) (lo hi : Z) : result Z :=
  bs_rec (Z.to_nat (hi - lo)) l val lo hi.

(** ** Wavenumber balancer *)

(** [count(lbls, wntarget)]: the sum over the sources of the index that
    [bs] finds for [wntarget] in the whole file. *)
Fixpoint count_loop (lbls : list lbl) (wntarget : Q) (nwave : Z) : result Z :=
  match lbls with
  | [] => Ok nwave
  | l :: rest =>
      i <- bs l wntarget 0 (nlines l - 1) ;;
      count_loop rest wntarget (nwave + i)
  end.

Definition count (lbls : list lbl) (wntarget : Q) : result Z :=
  count_loop lbls wntarget 0.

(** The default of the keyword argument [tol=0.01]. *)
Definition tol_default : Q := 1 # 100.

(** [wnbalance]: bisection on the wavenumber.  The source recurses with no
    bound of its own; [limit] is the number of nested calls that the
    interpreter still allows, and exhausting it is Python's
    [RecursionError].  The midpoint is kept in lowest terms ([Qred] does
    not change its value). *)
Fixpoint wnbalance (limit : nat) (lbls : list lbl) (wnmin wnmax : Q)
    (targetsize : Q) (zero : Z) (tol : Q) : result Q :=
  match limit with
  | O => Raise RecursionError
  | S d =>
      let wntarget := Qred ((1 # 2) * (wnmax + wnmin)) in
      ntarget <- count lbls wntarget ;;
      if Qlt_bool (Qabs (inject_Z (ntarget - zero) - targetsize))
                  (tol * targetsize)
      then Ok wntarget
      else if Qlt_bool (inject_Z (ntarget - zero)) targetsize
      then wnbalance d lbls wntarget wnmax targetsize zero tol
      else wnbalance d lbls wnmin wntarget targetsize zero tol
  end.

(** ** Driver: in-window index range of one source (repack.py, 221-230) *)

(** [while i0 > 0 and getwn(i0-1) >= wnmin: i0 -= 1]; the counter bounds
    the number of iterations ([i0] itself is enough). *)
Fixpoint widen_left (n : nat) (l : lbl) (wnmin : Q) (i0 : Z) : result Z :=
  match n with
  | O => Ok i0
  | S m =>
      if 0 <? i0 then
        w <- getwn l (i0 - 1) ;;
        if Qle_bool wnmin w then widen_left m l wnmin (i0 - 1) else Ok i0
      else Ok i0
  end.

(** [while iN < nlines-1 and getwn(iN+1) <= wnmin: iN += 1]; note that the
    comparison is with [wnmin]. *)
Fixpoint widen_right (n : nat) (l : lbl) (wnmin : Q) (iN : Z) : result Z :=
  match n with
  | O => Ok iN
  | S m =>
      if iN <? nlines l - 1 then
        w <- getwn l (iN + 1) ;;
        if Qle_bool w wnmin then widen_right m l wnmin (iN + 1) else Ok iN
      else Ok iN
  end.

(** The pair [(i0, iN)] the driver reaches for one source. *)
Definition index_range (l : lbl) (wnmin wnmax : Q) : result (Z * Z) :=
  b0 <- bs l wnmin 0 (nlines l - 1) ;;
  i0 <- widen_left (Z.to_nat b0) l wnmin b0 ;;
  bN <- bs l wnmax i0 (nlines l - 1) ;;
  iN <- widen_right (Z.to_nat (nlines l - 1 - bN)) l wnmin bN ;;
  Ok (i0, iN).

(** The loop over the sources of a group: [istart] and [nlines] lists. *)
Fixpoint gather (lbls : list lbl) (wnmin wnmax : Q)
  : result (list Z * list Z) :=
  match lbls with
  | [] => Ok ([], [])
  | l :: rest =>
      r <- index_range l wnmin wnmax ;;
      rs <- gather rest wnmin wnmax ;;
      Ok (fst r :: fst rs, (snd r - fst r) :: snd rs)
  end.

(** ** Driver: chunk plan (repack.py, 233-249) *)

(** [np.linspace(start, stop, num)]: [arange(num) * step + start] with
    [step = (stop - start) / (num - 1)], the last sample set to [stop]. *)
Definition linspace_at (start stop : Q) (num : nat) (j : nat) : Q :=
  if andb (Nat.eqb (S j) num) (Nat.ltb 1 num) then stop
  else (inject_Z (Z.of_nat j) * ((stop - start) / inject_Z (Z.of_nat num - 1))
        + start)%Q.

Definition linspace (start stop : Q) (num : nat) : list Q :=
  map (linspace_at start stop num) (seq 0 num).

(** [np.sum] of an integer column. *)
Definition zsum (col : list Z) : Z := fold_left Z.add col 0.

(** The plan is kept by columns: column [n] holds [chunk[k, n]] for every
    source [k] of the group. *)
Definition plan : Type := list (list Z).

Definition C (p : plan) (k n : nat) : Z := nth k (nth n p []) 0.

(** [for k: chunk[k,n] = lbl[k].bs(wnchunk[n], chunk[k,n-1], chunk[k,nchunks])] *)
Fixpoint bs_column (lbls : list lbl) (val : Q) (prev last : list Z)
  : result (list Z) :=
  match lbls, prev, last with
  | l :: ls, lo :: prev', hi :: last' =>
      i <- bs l val lo hi ;;
      rest <- bs_column ls val prev' last' ;;
      Ok (i :: rest)
  | _, _, _ => Ok []
  end.

(** [for n in arange(1, nchunks)]: each boundary is balanced between the
    previous boundary [wnchunk[n-1]] and [wnmax], then located in every
    source. *)
Fixpoint balance_columns (limit : nat) (lbls : list lbl) (wnmax target : Q)
    (last : list Z) (steps : nat) (wnprev : Q) (prev : list Z)
  : result (list (list Z)) :=
  match steps with
  | O => Ok []
  | S s =>
      let zero := zsum prev in
      wn <- wnbalance limit lbls wnprev wnmax target zero tol_default ;;
      col <- bs_column lbls wn prev last ;;
      rest <- balance_columns limit lbls wnmax target last s wn col ;;
      Ok (col :: rest)
  end.

(** [nchunks = int(np.sum(nlines)/chunksize) + 1].  A zero [chunksize]
    makes the quotient infinite or undefined, and [int] raises on it. *)
Definition number_of_chunks (total chunksize : Z) : result Z :=
  if chunksize =? 0 then
    Raise (if total =? 0 then ValueError else OverflowError)
  else Ok (Qtrunc (inject_Z total / inject_Z chunksize) + 1).

Definition chunk_plan (limit : nat) (lbls : list lbl) (wnmin wnmax : Q)
    (chunksize : Z) : result plan :=
  g <- gather lbls wnmin wnmax ;;
  let istart := fst g in
  let nl := snd g in
  nchunks <- number_of_chunks (zsum nl) chunksize ;;
  let target := (inject_Z (zsum nl) / inject_Z nchunks)%Q in
  (* np.zeros((len, nchunks+1)) and chunk[:, 0] = istart *)
  if nchunks <? -1 then Raise ValueError
  else if nchunks =? -1 then Raise IndexError
  else
    let last := map (fun p => fst p + snd p) (combine istart nl) in
    let first := if nchunks =? 0 then last else istart in
    if (List.length lbls =? 1)%nat then
      let row := map Qtrunc
                   (linspace (inject_Z (hd 0 first)) (inject_Z (hd 0 last))
                             (Z.to_nat (nchunks + 1))) in
      Ok (map (fun v => [v]) row)
    else if nchunks =? 0 then Ok [last]
    else
      mids <- balance_columns limit lbls wnmax target last
                (Z.to_nat (nchunks - 1)) wnmin first ;;
      Ok (first :: mids ++ [last]).

(** ** Python string operations used by [parse_file] *)

Module PyStr.

(** [s.find(sub)]: lowest index of [sub] in [s], or -1. *)
Fixpoint find_at (sub s : string) (pos : Z) : Z :=
  if String.prefix sub s then pos
  else match s with
       | EmptyString => -1
       | String _ rest => find_at sub rest (pos + 1)
       end.

Definition find (s sub : string) : Z := find_at sub s 0.

(** [s.rfind(sub)]: highest index of [sub] in [s], or -1. *)
Fixpoint rfind_at (sub s : string) (pos best : Z) : Z :=
  let best' := if String.prefix sub s then pos else best in
  match s with
  | EmptyString => best'
  | String _ rest => rfind_at sub rest (pos + 1) best'
  end.

Definition rfind (s sub : string) : Z := rfind_at sub s 0 (-1).

(** [s.index(sub)] and [s.rindex(sub)] raise [ValueError] where [find] and
    [rfind] answer -1. *)
Definition index (s sub : string) : result Z :=
  let i := find s sub in if i <? 0 then Raise ValueError else Ok i.

Definition rindex (s sub : string) : result Z :=
  let i := rfind s sub in if i <? 0 then Raise ValueError else Ok i.

(** [s.count(sub)] for a non-empty [sub]: occurrences that do not overlap,
    from the left. *)
Fixpoint count_at (sub s : string) (skip : nat) : Z :=
  match s with
  | EmptyString => 0
  | String _ rest =>
      match skip with
      | S k => count_at sub rest k
      | O => if String.prefix sub s
             then 1 + count_at sub rest (String.length sub - 1)
             else count_at sub rest 0
      end
  end.

Definition count (s sub : string) : Z := count_at sub s 0.

(** [s.replace(old, new)] for a non-empty [old]. *)
Fixpoint replace_at (old new s : string) (skip : nat) : string :=
  match s with
  | EmptyString => EmptyString
  | String c rest =>
      match skip with
      | S k => replace_at old new rest k
      | O => if String.prefix old s
             then (new ++ replace_at old new rest (String.length old - 1))%string
             else String c (replace_at old new rest 0)
      end
  end.

(** With an empty [old] Python puts [new] before every character and at
    the end. *)
Fixpoint intersperse (new s : string) : string :=
  match s with
  | EmptyString => new
  | String c rest => (new ++ String c (intersperse new rest))%string
  end.

Definition replace (s old new : string) : string :=
  match old with
  | EmptyString => intersperse new s
  | _ => replace_at old new s 0
  end.

(** [s[a:b]]: a negative bound counts from the end, and both bounds are
    clipped to the string. *)
Definition clip (n : Z) (i : Z) : Z :=
  if i <? 0 then Z.max 0 (i + n) else Z.min i n.

Definition slice (s : string) (a b : Z) : string :=
  let n := Z.of_nat (String.length s) in
  let a' := clip n a in
  let b' := clip n b in
  String.substring (Z.to_nat a') (Z.to_nat (b' - a')) s.

(** [s.split(sep)] for a one-character separator. *)
Fixpoint split (sep : ascii) (s : string) : list string :=
  match s with
  | EmptyString => [EmptyString]
  | String c rest =>
      if Ascii.eqb c sep then EmptyString :: split sep rest
      else match split sep rest with
           | [] => [String c EmptyString]
           | w :: ws => String c w :: ws
           end
  end.

Fixpoint repeat_str (s : string) (n : nat) : string :=
  match n with
  | O => EmptyString
  | S k => (s ++ repeat_str s k)%string
  end.

(** [s.zfill(width)]: zeros on the left, after a leading sign. *)
Definition zfill (s : string) (width : nat) : string :=
  let pad := repeat_str "0" (width - String.length s) in
  match s with
  | String c rest =>
      if orb (Ascii.eqb c "+") (Ascii.eqb c "-")
      then String c (pad ++ rest)%string else (pad ++ s)%string
  | EmptyString => pad
  end.

Definition is_digit (c : ascii) : bool :=
  let n := nat_of_ascii c in andb (48 <=? n)%nat (n <=? 57)%nat.

Definition is_alpha (c : ascii) : bool :=
  let n := nat_of_ascii c in
  orb (andb (65 <=? n)%nat (n <=? 90)%nat)
      (andb (97 <=? n)%nat (n <=? 122)%nat).

(** Longest prefix of characters in a class, and the rest. *)
Fixpoint span (p : ascii -> bool) (s : string) : string * string :=
  match s with
  | EmptyString => (EmptyString, EmptyString)
  | String c rest =>
      if p c then let r := span p rest in (String c (fst r), snd r)
      else (EmptyString, s)
  end.

(** The [re.match] of [parse_file], case-insensitive: one or more digits,
    one or more letters, then any number of digits, from the start of the
    token; the three groups, or [None].  The classes are disjoint, so the
    greedy match is the only candidate. *)
Definition re_match (s : string) : option (string * string * string) :=
  let d := span is_digit s in
  let a := span is_alpha (snd d) in
  let n := span is_digit (snd a) in
  match fst d, fst a with
  | EmptyString, _ => None
  | _, EmptyString => None
  | g1, g2 => Some (g1, g2, fst n)
  end.

(** [int(s)] on a string of decimal digits. *)
Fixpoint int_acc (s : string) (acc : nat) : nat :=
  match s with
  | EmptyString => acc
  | String c rest => int_acc rest (10 * acc + (nat_of_ascii c - 48))
  end.

Definition int (s : string) : nat := int_acc s 0.

End PyStr.

(** ** [parse_file] (utilities.py, 45-103) *)

(** What [parse_file] returns, without the two path names [pffile] and
    [sfile], which are built by concatenation and cannot fail. *)
Record file_info : Type := mk_info {
  suffix   : string;
  molecule : string;
  isotope  : option string
}.

Definition hitempID (molID : string) : result string :=
  if String.eqb molID "01" then Ok "H2O"%string
  else if String.eqb molID "02" then Ok "CO2"%string
  else if String.eqb molID "05" then Ok "CO"%string
  else if String.eqb molID "08" then Ok "NO"%string
  else Raise KeyError.

(** The loop over the tokens of the isotopologue name. *)
Fixpoint parse_tokens (s : list string) (mol iso : string)
  : result (string * string) :=
  match s with
  | [] => Ok (mol, iso)
  | tok :: rest =>
      match PyStr.re_match tok with
      | None => Raise AttributeError
      | Some (g1, g2, g3) =>
          let N := match g3 with
                   | EmptyString => 1%nat
                   | _ => PyStr.int g3
                   end in
          parse_tokens rest
            (mol ++ g2 ++ g3)%string
            (iso ++ PyStr.repeat_str (PyStr.slice g1 (-1) (len g1)) N)%string
      end
  end.

(** [file] is the base name of the path ([os.path.split] of the real
    path). *)
Definition parse_file (file : string) (dbtype : string) : result file_info :=
  if String.eqb dbtype "exomol" then
    let sfile := PyStr.replace file "trans" "states" in
    suff <- (if PyStr.count sfile "__" =? 2 then
               a <- PyStr.rindex sfile "__" ;;
               b <- PyStr.index sfile "." ;;
               Ok (PyStr.slice sfile a b)
             else Ok EmptyString) ;;
    let s := PyStr.split "-" (hd EmptyString (PyStr.split "_" file)) in
    mi <- parse_tokens s EmptyString EmptyString ;;
    Ok (mk_info suff (fst mi) (Some (snd mi)))
  else if String.eqb dbtype "hitran" then
    let molID := PyStr.slice file 0 2 in
    mol <- hitempID molID ;;
    let suff := PyStr.slice file (PyStr.find file "_" + 1)
                                 (PyStr.rfind file ".par") in
    let suff := if 0 <? PyStr.find suff "-"
                then PyStr.zfill (PyStr.slice suff 0 (PyStr.find suff "-")) 5
                else suff in
    Ok (mk_info suff mol None)
  else Raise UnboundLocalError.

(** ** Driver: start of [repack] (repack.py, 126-155) *)

(** [n = int((hi-lo)/step + 1)] followed by [np.linspace(lo, hi, n)], which
    refuses a negative number of samples. *)
Definition sampling (lo hi step : Q) : result Z :=
  if Qeq_bool step 0 then Raise ZeroDivisionError
  else
    let n := Qtrunc ((hi - lo) / step + 1) in
    if n <? 0 then Raise ValueError else Ok n.

Fixpoint parse_files (files : list string) (dbtype : string)
  : result (list file_info) :=
  match files with
  | [] => Ok []
  | f :: rest =>
      i <- parse_file f dbtype ;;
      infos <- parse_files rest dbtype ;;
      Ok (i :: infos)
  end.

(** [len(np.unique(mol))] *)
Definition nunique (mol : list string) : nat :=
  List.length (nodup string_dec mol).

(** The driver up to [mol = mol[0]]: the samplings, the check of [dbtype],
    the parsing of the file names and the check that they name one
    molecule.  It hands over the molecule, the parsed names and the sizes
    of the two grids. *)
Definition repack_prologue (files : list string) (dbtype : string)
    (tmin tmax dtemp wnmin wnmax dwn : Q)
  : result (string * list file_info * Z * Z) :=
  ntemp <- sampling tmin tmax dtemp ;;
  nwave <- sampling wnmin wnmax dwn ;;
  if negb (orb (String.eqb dbtype "hitran") (String.eqb dbtype "exomol"))
  then Raise (SystemExit 0)
  else
    infos <- parse_files files dbtype ;;
    let mol := map molecule infos in
    if (1 <? nunique mol)%nat then Raise (SystemExit 0)
    else match mol with
         | [] => Raise IndexError
         | m :: _ => Ok (m, infos, ntemp, nwave)
         end.

(** ** Classifier and emission for one chunk (repack.py, 271-322) *)

(** [a[mask]] on arrays of one length. *)
Fixpoint mask_select {A : Type} (mask : list bool) (a : list A) : list A :=
  match mask, a with
  | b :: mask', x :: a' =>
      if b then x :: mask_select mask' a' else mask_select mask' a'
  | _, _ => []
  end.

(** [flag |= flag2] *)
Fixpoint ior (flag flag2 : list bool) : list bool :=
  match flag, flag2 with
  | b :: f, b2 :: f2 => (b || b2) :: ior f f2
  | _, _ => []
  end.

(** One transition of the merged chunk: the entries of the arrays [wn],
    [Elow], [gf] and [iiso] at one position. *)
Record transition : Type := mk_transition {
  t_wn   : R;
  t_Elow : R;
  t_gf   : R;
  t_iiso : nat
}.

(** A record of the LBL stream, the argument of [struct.pack("dddi", ...)]. *)
Record lbl_record : Type := mk_record {
  r_wn   : R;
  r_Elow : R;
  r_gf   : R;
  r_iso  : Z
}.

(** The two outputs that a chunk changes: the LBL stream and the continuum
    grid, one column per temperature sample. *)
Record outputs : Type := mk_outputs {
  lblf      : list lbl_record;
  continuum : list (list R)
}.

Section Classifier.

Local Open Scope R_scope.

(** Constants of [repack.constants] and the speed of light of
    [scipy.constants]. *)
Variables C2 C3 kB amu c_light : R.

(** Per-isotope tables: abundance ratio, mass, partition-function
    interpolators and the integer isotope names. *)
Variables iratio imass : nat -> R.
Variable z : nat -> R -> R.
Variable isotopes : nat -> Z.

(** [np.argsort]. *)
Variable argsort : list R -> list nat.

(** The compiled routine [u.flag(flag, wn, s, isort, alphad, sthresh)]
    writes into the array [flag]; [flag_cell ... m] is the value of
    cell [m] after the call. *)
Variable flag_cell :
  list bool -> list R -> list R -> list nat -> list R -> R -> nat -> bool.

(** The compiled routine [u.continuum(s, wn, column, wnspec)] writes into
    a column of the grid; [u_continuum] gives the column after the
    call. *)
Variable u_continuum : list R -> list R -> list R -> list R -> list R.

Definition u_flag (flag : list bool) (wn s : list R) (isort : list nat)
    (alphad : list R) (sthresh : R) : list bool :=
  map (flag_cell flag wn s isort alphad sthresh)
      (seq 0 (List.length flag)).

(** [gf*iratio[iiso]/Z[iiso] * exp(-C2*Elow/T) * (1-exp(-C2*wn/T))] *)
Definition strength (T : R) (tr : transition) : R :=
  t_gf tr * iratio (t_iiso tr) / z (t_iiso tr) T
  * exp (- C2 * t_Elow tr / T) * (1 - exp (- C2 * t_wn tr / T)).

(** [wn/(100*sc.c) * sqrt(2.0*kB*T / (imass[iiso]*amu))] *)
Definition doppler (T : R) (tr : transition) : R :=
  t_wn tr / (100 * c_light)
  * sqrt (2 * kB * T / (imass (t_iiso tr) * amu)).

(** Element-wise quotient of two arrays. *)
Fixpoint array_div (a b : list R) : list R :=
  match a, b with
  | x :: a', y :: b' => x / y :: array_div a' b'
  | _, _ => []
  end.

(** The third argument of [u.flag] in the pass at [tmin]: [s/alphad]. *)
Definition metric_low (tmin : R) (chunk : list transition) : list R :=
  array_div (map (strength tmin) chunk) (map (doppler tmin) chunk).

(** The third argument of [u.flag] in the pass at [tmax]:
    [s/alphad/np.sqrt(np.pi)]. *)
Definition metric_high (tmax : R) (chunk : list transition) : list R :=
  map (fun x => x / sqrt PI)
      (array_div (map (strength tmax) chunk) (map (doppler tmax) chunk)).

Definition ones (n : nat) : list bool := repeat true n.

Definition flag_low (tmin sthresh : R) (chunk : list transition)
  : list bool :=
  let s := map (strength tmin) chunk in
  let alphad := map (doppler tmin) chunk in
  let isort := rev (argsort (array_div s alphad)) in
  u_flag (ones (List.length chunk)) (map t_wn chunk)
         (metric_low tmin chunk) isort alphad sthresh.

Definition flag_high (tmax sthresh : R) (chunk : list transition)
  : list bool :=
  let s := map (strength tmax) chunk in
  let alphad := map (doppler tmax) chunk in
  let isort := rev (argsort (array_div s alphad)) in
  u_flag (ones (List.length chunk)) (map t_wn chunk)
         (metric_high tmax chunk) isort alphad sthresh.

(** The flag after [flag |= flag2]. *)
Definition final_flag (tmin tmax sthresh : R) (chunk : list transition)
  : list bool :=
  ior (flag_low tmin sthresh chunk) (flag_high tmax sthresh chunk).

(** [c.C3 * gf*iratio[iiso]/Z[iiso] * exp(...) * (1-exp(...))] *)
Definition cont_strength (T : R) (tr : transition) : R :=
  C3 * t_gf tr * iratio (t_iiso tr) / z (t_iiso tr) T
  * exp (- C2 * t_Elow tr / T) * (1 - exp (- C2 * t_wn tr / T)).

(** [for t in arange(ntemp)]: one call of [u.continuum] per sample, on
    the column of that sample. *)
Fixpoint store_weak (flag : list bool) (chunk : list transition)
    (wnspec : list R) (temperature : list R) (cont : list (list R))
  : list (list R) :=
  match temperature, cont with
  | T :: temps, col :: cols =>
      u_continuum (mask_select (map negb flag) (map (cont_strength T) chunk))
                  (mask_select (map negb flag) (map t_wn chunk))
                  col wnspec
      :: store_weak flag chunk wnspec temps cols
  | _, _ => cont
  end.

(** [indices = np.arange(len(wn))[flag]] *)
Definition strong_indices (flag : list bool) (n : nat) : list nat :=
  mask_select flag (seq 0 n).

Definition pack (chunk : list transition) (m : nat) : lbl_record :=
  let tr := nth m chunk (mk_transition 0 0 0 0) in
  mk_record (t_wn tr) (t_Elow tr) (t_gf tr) (isotopes (t_iiso tr)).

(** [for m in indices: lblf.write(struct.pack(...))] *)
Fixpoint store_strong (chunk : list transition) (indices : list nat)
    (stream : list lbl_record) : list lbl_record :=
  match indices with
  | [] => stream
  | m :: rest => store_strong chunk rest (stream ++ [pack chunk m])
  end.

(** A chunk, from the flagging to the two stores. *)
Definition process_chunk (tmin tmax sthresh : R) (temperature wnspec : list R)
    (chunk : list transition) (out : outputs) : outputs :=
  let flag := final_flag tmin tmax sthresh chunk in
  let cont := store_weak flag chunk wnspec temperature (continuum out) in
  let indices := strong_indices flag (List.length chunk) in
  mk_outputs (store_strong chunk indices (lblf out)) cont.

End Classifier.

(** ** Predicates on sources and plans *)

(** The source has at least one row and every row below [nlines] can be
    read. *)
Definition well_formed (l : lbl) : Prop :=
  1 <= nlines l <= Z.of_nat (List.length (wnrows l)).

(** The wavenumbers of the rows [0 .. nlines-1] increase strictly. *)
Definition strictly_increasing (l : lbl) : Prop :=
  forall i j a b,
    0 <= i -> i < j -> j <= nlines l - 1 ->
    getwn l i = Ok a -> getwn l j = Ok b -> (a < b)%Q.

(** A check of the same on the column. *)
Fixpoint increasingb (rows : list Q) : bool :=
  match rows with
  | a :: (b :: _) as rest => andb (Qlt_bool a b) (increasingb rest)
  | _ => true
  end.

(** Saturation of [bs] read as two independent rules: 0 at or below the
    first row, [nlines-1] at or above the last row. *)
Definition saturates_both_ways (l : lbl) (val : Q) (lo hi : Z) : Prop :=
  (forall w0, getwn l 0 = Ok w0 -> (val <= w0)%Q -> bs l val lo hi = Ok 0)
  /\ (forall wN, getwn l (nlines l - 1) = Ok wN -> (wN <= val)%Q ->
        bs l val lo hi = Ok (nlines l - 1)).

(** Sources used in the examples: [nlines] rows, all readable. *)
Definition source (rows : list Q) : lbl :=
  mk_lbl "lines.par" 161 (Z.of_nat (List.length rows)) rows.

(** Rows with wavenumbers [a, a+1, ...]. *)
Definition ramp (a : Z) (n : nat) : list Q :=
  map (fun i => inject_Z (a + Z.of_nat i)) (seq 0 n).

(** The size of the file is a multiple of the measured row length. *)
Definition rows_divide (content : string) (l : lbl) : Prop :=
  len content mod llen l = 0.

(** A file of three lines of unequal length. *)
Definition ragged_file : string :=
  String "a" (String "b" (String "c" (String "010"
 (String "d" (String "e" (String "f" (String "g" (String "010"
 (String "h" (String "i" EmptyString)))))))))).

(** The test of [wnbalance] holds at the boundary [w]. *)
Definition tolerance_met (lbls : list lbl) (w targetsize : Q) (zero : Z)
    (tol : Q) : Prop :=
  exists n, count lbls w = Ok n
            /\ (Qabs (inject_Z (n - zero) - targetsize) < tol * targetsize)%Q.

(** The run of the driver stops on one of its two error messages. *)
Definition stops_on_error_message (files : list string) (dbtype : string)
  : Prop :=
  (dbtype <> "hitran"%string /\ dbtype <> "exomol"%string)
  \/ (exists infos, parse_files files dbtype = Ok infos
                    /\ (1 < nunique (map molecule infos))%nat).

(** Column [a] is below column [b], source by source. *)
Definition col_le (a b : list Z) : Prop := Forall2 Z.le a b.

(** Consecutive columns of a plan are ordered. *)
Inductive chain : list (list Z) -> Prop :=
| chain_nil : chain []
| chain_one (c : list Z) : chain [c]
| chain_cons (a b : list Z) (rest : list (list Z)) :
    col_le a b -> chain (b :: rest) -> chain (a :: b :: rest).

(** A property of every source of a group with its entries in two
    columns; the three lists have one length. *)
Fixpoint col_inv (P : lbl -> Z -> Z -> Prop) (lbls : list lbl)
    (prev last : list Z) : Prop :=
  match lbls, prev, last with
  | l :: ls, lo :: ps, hi :: hs => P l lo hi /\ col_inv P ls ps hs
  | [], [], [] => True
  | _, _, _ => False
  end.

(** What the balancing loop keeps true of a source: [lo] is its entry in
    the column located at [wnprev], [hi] its entry in the last column. *)
Definition located (wnmax wnprev : Q) (l : lbl) (lo hi : Z) : Prop :=
  lo <= hi
  /\ (forall w0, getwn l 0 = Ok w0 -> (wnprev <= w0)%Q -> lo = 0)
  /\ 0 <= hi
  /\ (forall w0 wN, getwn l 0 = Ok w0 -> getwn l (nlines l - 1) = Ok wN ->
        (w0 < wnmax)%Q -> (wN <= wnmax)%Q -> hi = nlines l - 1).

(** Row [r] of source [k] is read in chunk [n] of the plan [p]: the
    driver reads the rows [chunk[k,n] .. chunk[k,n+1]-1]. *)
Definition in_chunk (p : plan) (k n : nat) (r : Z) : Prop :=
  C p k n <= r < C p k (S n).

(** Tables and routines used in the examples of the classifier: one
    isotope of unit abundance, mass and partition function, and a
    flagging routine that leaves the flag array as it finds it. *)
Definition unit_table (j : nat) : R := 1%R.

Definition unit_pf (j : nat) (T : R) : R := 1%R.

Definition keep_flags (flag : list bool) (wn s : list R) (isort : list nat)
    (alphad : list R) (sthresh : R) (m : nat) : bool :=
  nth m flag false.

Definition no_sort (a : list R) : list nat := [].

Definition line0 : transition := mk_transition 1000 0 1 0.

Definition line1 : transition := mk_transition 1001 50 2 0.

Definition iso_names (j : nat) : Z := 1.

(** A flagging routine that keeps the even positions strong. *)
Definition even_strong (flag : list bool) (wn s : list R) (isort : list nat)
    (alphad : list R) (sthresh : R) (m : nat) : bool :=
  Nat.even m.

(** A stand-in for the continuum routine that records what it is given:
    it appends the strengths it receives to the column. *)
Definition record_call (s wn col wnspec : list R) : list R := (col ++ s)%list.

(** ** Driver: wavenumber sets and isotope indices (repack.py, 157-197) *)

(** [list.remove(x)]: drops the first occurrence; [ValueError] when there
    is none. *)
Fixpoint list_remove (x : string) (s : list string) : result (list string) :=
  match s with
  | [] => Raise ValueError
  | y :: rest =>
      if String.eqb y x then Ok rest
      else rest' <- list_remove x rest ;; Ok (y :: rest')
  end.

(** [s[np.argmin(s)]] on a non-empty list [x :: rest]: its least string. *)
Fixpoint least (x : string) (rest : list string) : string :=
  match rest with
  | [] => x
  | y :: ys => least (if String.ltb y x then y else x) ys
  end.

(** [for i in np.arange(nfiles): if suff[i] == suffix: idx.append(i);
    s.remove(suffix)], from file [i] on. *)
Fixpoint collect (suff : list string) (i : nat) (suffix : string)
    (idx : list nat) (s : list string) : result (list nat * list string) :=
  match suff with
  | [] => Ok (idx, s)
  | x :: rest =>
      if String.eqb x suffix then
        s' <- list_remove suffix s ;;
        collect rest (S i) suffix (idx ++ [i]) s'
      else collect rest (S i) suffix idx s
  end.

(** [while np.size(s) != 0]: each round takes the least suffix left and
    gathers the files that carry it.  The source puts no bound on the
    loop; the counter gives the number of rounds allowed, and [None] means
    that they did not suffice. *)
Fixpoint wnset_loop (rounds : nat) (suff s : list string)
    (wnset : list (list nat)) : option (result (list (list nat))) :=
  match s with
  | [] => Some (Ok wnset)
  | x :: rest =>
      match rounds with
      | O => None
      | S r =>
          match collect suff 0 (least x rest) [] s with
          | Raise e => Some (Raise e)
          | Ok (idx, s') => wnset_loop r suff s' (wnset ++ [idx])
          end
      end
  end.

(** The file indices of each wavenumber set, with one round per file. *)
Definition wnsets (suff : list string) : option (result (list (list nat))) :=
  wnset_loop (List.length suff) suff suff [].

(** [list.index(x)]: the first position of [x]; [ValueError] when there is
    none. *)
Fixpoint list_index (x : string) (l : list string) : result nat :=
  match l with
  | [] => Raise ValueError
  | y :: rest =>
      if String.eqb y x then Ok 0%nat
      else n <- list_index x rest ;; Ok (S n)
  end.

(** [np.unique] on strings: the distinct values in increasing order. *)
Fixpoint insert_sorted (x : string) (l : list string) : list string :=
  match l with
  | [] => [x]
  | y :: rest =>
      if String.eqb x y then l
      else if String.ltb x y then x :: l
      else y :: insert_sorted x rest
  end.

Definition np_unique (l : list string) : list string :=
  fold_right insert_sorted [] l.

(** [for i: iso[i] = isotopes.index(isot[i])] *)
Fixpoint iso_indices (isotopes isot : list string) : result (list nat) :=
  match isot with
  | [] => Ok []
  | name :: rest =>
      j <- list_index name isotopes ;;
      js <- iso_indices isotopes rest ;;
      Ok (j :: js)
  end.

(** [for j: i = isot.index(isotopes[j]); lblargs.append([elow, degen, i])]:
    the third entry of each [lblargs[j]]. *)
Fixpoint lbl_tags (isotopes isot : list string) : result (list nat) :=
  match isotopes with
  | [] => Ok []
  | name :: rest =>
      i <- list_index name isot ;;
      tags <- lbl_tags rest isot ;;
      Ok (i :: tags)
  end.

(** The isotope index handed to the source of file [idx] for an ExoMol
    run: [lblargs[iso[idx]][2]]. *)
Definition source_tag (isotopes isot : list string) (idx : nat)
  : result nat :=
  iso <- iso_indices isotopes isot ;;
  tags <- lbl_tags isotopes isot ;;
  match nth_error iso idx with
  | None => Raise IndexError
  | Some j =>
      match nth_error tags j with
      | None => Raise IndexError
      | Some i => Ok i
      end
  end.

(** ** Driver: sampling grids (repack.py, 126-132) *)

(** [np.linspace(lo, hi, int((hi-lo)/step + 1))] *)
Definition grid (lo hi step : Q) : result (list Q) :=
  n <- sampling lo hi step ;;
  Ok (linspace lo hi (Z.to_nat n)).

(** ** Further predicates *)

(** The wavenumbers of the rows [0 .. nlines-1] do not decrease. *)
Definition nondecreasing (l : lbl) : Prop :=
  forall i j a b,
    0 <= i -> i <= j -> j <= nlines l - 1 ->
    getwn l i = Ok a -> getwn l j = Ok b -> (a <= b)%Q.

Fixpoint nondecreasingb (rows : list Q) : bool :=
  match rows with
  | a :: (b :: _) as rest => andb (Qle_bool a b) (nondecreasingb rest)
  | _ => true
  end.

(** The positions of [suffix] in [suff], counted from [i]. *)
Fixpoint positions (suff : list string) (i : nat) (suffix : string)
  : list nat :=
  match suff with
  | [] => []
  | x :: rest =>
      if String.eqb x suffix then i :: positions rest (S i) suffix
      else positions rest (S i) suffix
  end.

(** The order of [np.argmin] and [np.unique] on strings. *)
Definition str_lt (a b : string) : Prop := String.ltb a b = true.

(** The largest value [count] can take: [nlines - 1] for every source. *)
Definition rows_bound (lbls : list lbl) : Z :=
  fold_right (fun l a => nlines l - 1 + a) 0 lbls.

(** Every source of a group is well formed and sorted. *)
Definition sorted_sources (lbls : list lbl) : Prop :=
  Forall (fun l => well_formed l /\ nondecreasing l) lbls.

(** ** [read_iso] (utilities.py, 420-462) *)

(** The characters that [str.strip] and [str.split] take as white space in
    ASCII text: codes 9 to 13 and 28 to 32. *)
Definition is_space (c : ascii) : bool :=
  let n := nat_of_ascii c in
  orb (andb (9 <=? n)%nat (n <=? 13)%nat)
      (andb (28 <=? n)%nat (n <=? 32)%nat).

Fixpoint lstrip (s : string) : string :=
  match s with
  | EmptyString => EmptyString
  | String c rest => if is_space c then lstrip rest else s
  end.

Fixpoint rstrip (s : string) : string :=
  match s with
  | EmptyString => EmptyString
  | String c rest =>
      match rstrip rest with
      | EmptyString =>
          if is_space c then EmptyString else String c EmptyString
      | r => String c r
      end
  end.

(** [s.strip()] *)
Definition strip (s : string) : string := rstrip (lstrip s).

(** [s.split()]: the maximal runs of characters that are not white space;
    [cur] is the run being read. *)
Fixpoint split_from (cur s : string) : list string :=
  match s with
  | EmptyString =>
      match cur with
      | EmptyString => []
      | _ => [cur]
      end
  | String c rest =>
      if is_space c then
        match cur with
        | EmptyString => split_from EmptyString rest
        | _ => cur :: split_from EmptyString rest
        end
      else split_from (cur ++ String c EmptyString)%string rest
  end.

Definition split_ws (s : string) : list string := split_from EmptyString s.

(** [info[k]] *)
Definition item (info : list string) (k : nat) : result string :=
  match nth_error info k with
  | Some t => Ok t
  | None => Raise IndexError
  end.

(** [x in l] on a list of strings. *)
Definition py_in (x : string) (l : list string) : bool :=
  existsb (String.eqb x) l.

(** [a[k] = v] for [k] inside the array. *)
Fixpoint list_update {A : Type} (l : list A) (k : nat) (v : A) : list A :=
  match l, k with
  | [], _ => []
  | _ :: rest, O => v :: rest
  | x :: rest, S k' => x :: list_update rest k' v
  end.

(** [iiso], bound only for the two known database types; reading it
    otherwise raises [UnboundLocalError]. *)
Definition iso_column (dbtype : string) : result nat :=
  if String.eqb dbtype "exomol" then Ok 2%nat
  else if String.eqb dbtype "hitran" then Ok 1%nat
  else Raise UnboundLocalError.

(** Lines that the loop skips: comments and blank lines. *)
Definition skipped (line : string) : bool :=
  orb (String.prefix "#" line) (String.eqb (strip line) "").

Section ReadIso.

(** The floats of the two arrays, their zero, and the conversion of a
    token that storing it into a float array performs. *)
Variable number : Type.
Variable zero : number.
Variable to_float : string -> result number.

(** One turn of the loop over the lines, on the arrays [(iratio, imass)]. *)
Definition read_iso_line (mol : string) (iso : list string)
    (dbtype : string) (line : string) (st : list number * list number)
  : result (list number * list number) :=
  if skipped line then Ok st
  else
    let info := split_ws line in
    head <- item info 0 ;;
    if String.eqb head mol then
      c <- iso_column dbtype ;;
      name <- item info c ;;
      if py_in name iso then
        t3 <- item info 3 ;;
        k <- list_index name iso ;;
        r <- to_float t3 ;;
        t4 <- item info 4 ;;
        k' <- list_index name iso ;;
        m <- to_float t4 ;;
        Ok (list_update (fst st) k r, list_update (snd st) k' m)
      else Ok st
    else Ok st.

Fixpoint read_iso_lines (mol : string) (iso : list string)
    (dbtype : string) (lines : list string)
    (st : list number * list number)
  : result (list number * list number) :=
  match lines with
  | [] => Ok st
  | line :: rest =>
      st' <- read_iso_line mol iso dbtype line st ;;
      read_iso_lines mol iso dbtype rest st'
  end.

(** [read_iso(mol, iso, dbtype)] on the lines of the isotope file. *)
Definition read_iso (mol : string) (iso : list string) (dbtype : string)
    (lines : list string) : result (list number * list number) :=
  read_iso_lines mol iso dbtype lines
    (repeat zero (List.length iso), repeat zero (List.length iso)).

End ReadIso.

Arguments read_iso_line {number}.
Arguments read_iso_lines {number}.
Arguments read_iso {number}.

(** A line of the isotope file that names isotope [name] of [mol] in
    column [c]. *)
Definition names (mol : string) (c : nat) (name : string) (line : string)
  : Prop :=
  skipped line = false
  /\ nth_error (split_ws line) 0 = Some mol
  /\ nth_error (split_ws line) c = Some name.

(** [float] on plain decimal numerals [digits] or [digits.digits], for the
    examples. *)
Definition decimal (s : string) : result Q :=
  let (a, r) := PyStr.span PyStr.is_digit s in
  match a, r with
  | EmptyString, _ => Raise ValueError
  | _, EmptyString => Ok (inject_Z (Z.of_nat (PyStr.int a)))
  | _, String "." b =>
      let (f, r') := PyStr.span PyStr.is_digit b in
      match r' with
      | EmptyString =>
          Ok (Qred (inject_Z (Z.of_nat (PyStr.int a))
                    + inject_Z (Z.of_nat (PyStr.int f))
                      / inject_Z (10 ^ Z.of_nat (String.length f))))
      | _ => Raise ValueError
      end
  | _, _ => Raise ValueError
  end.

(** A small isotope file. *)
Definition isotope_lines : list string :=
  [ "# Mol  HITRAN  ExoMol  ratio  mass" ++ String "010" "";
    String "010" "";
    "H2O  161  116  0.9973  18.0106" ++ String "010" "";
    "H2O  181  118  0.0020  20.0148" ++ String "010" "";
    "CO   26   26   0.9865  27.9949" ++ String "010" "";
    "H2O  161  116  0.9970  18.0100" ++ String "010" "" ]%string.

(** An isotope file on which the lines of [mol] have tokens 3 and 4, and
    both convert to floats. *)
Definition table_ok {number : Type} (to_float : string -> result number)
    (mol : string) (lines : list string) : Prop :=
  forall line,
    In line lines -> skipped line = false ->
    nth_error (split_ws line) 0 = Some mol ->
    exists t3 t4 r m,
      nth_error (split_ws line) 3 = Some t3
      /\ nth_error (split_ws line) 4 = Some t4
      /\ to_float t3 = Ok r /\ to_float t4 = Ok m.

(** Only white space. *)
Fixpoint all_space (s : string) : bool :=
  match s with
  | EmptyString => true
  | String c rest => andb (is_space c) (all_space rest)
  end.

(** ** [read_pf], the header of a pyrat file (utilities.py, 140-160) *)

(** The [while True] loop over the header lines: [isotopes] is the
    variable of that name, unbound at first, and [nskip] the line
    counter.  Every turn reads [lines[nskip]] and moves one line on. *)
Fixpoint pf_scan (lines : list string) (isotopes : option (list string))
    (nskip : nat) : result (option (list string) * nat) :=
  match lines with
  | [] => Raise IndexError
  | l :: rest =>
      let line := strip l in
      isotopes' <-
        (if orb (String.eqb line "") (String.prefix "#" line)
         then Ok isotopes
         else if String.eqb line "@ISOTOPES" then
           match rest with
           | [] => Raise IndexError
           | next :: _ => Ok (Some (split_ws (strip next)))
           end
         else Ok isotopes) ;;
      if String.eqb line "@DATA" then Ok (isotopes', S nskip)
      else pf_scan rest isotopes' (S nskip)
  end.

(** The header of [read_pf(pffile, "pyrat")]: the isotope names, [nskip]
    and [ntemp = len(lines) - nskip]. *)
Definition pf_header (lines : list string)
  : result (list string * nat * nat) :=
  r <- pf_scan lines None 0 ;;
  match fst r with
  | None => Raise UnboundLocalError
  | Some isotopes =>
      Ok (isotopes, snd r, (List.length lines - snd r)%nat)
  end.

(** A line that reads [tag] once stripped. *)
Definition tagged (tag : string) (l : string) : Prop := strip l = tag.

(** A small pyrat partition-function file. *)
Definition pyrat_lines : list string :=
  [ "# Partition function" ++ String "010" "";
    "@ISOTOPES" ++ String "010" "";
    "  116 118" ++ String "010" "";
    String "010" "";
    "@DATA" ++ String "010" "";
    "  100.0  10.5  10.7" ++ String "010" "";
    "  200.0  20.5  20.7" ++ String "010" "" ]%string.

(** * Properties *)

(** ** Comparisons and truncation on [Q] *)

Lemma Qlt_bool_iff (x y : Q) : Qlt_bool x y = true <-> (x < y)%Q.
Proof.
  unfold Qlt_bool. rewrite negb_true_iff.
  split; intro H.
  - apply Qnot_le_lt. intro C. apply Qle_bool_iff in C. congruence.
  - destruct (Qle_bool y x) eqn:E; [|reflexivity].
    apply Qle_bool_iff in E. exfalso. exact (Qlt_not_le _ _ H E).
Qed.

Lemma Qlt_bool_false_iff (x y : Q) : Qlt_bool x y = false <-> (y <= x)%Q.
Proof.
  unfold Qlt_bool. rewrite negb_false_iff. apply Qle_bool_iff.
Qed.

Lemma Qle_bool_false_iff (x y : Q) : Qle_bool x y = false <-> (y < x)%Q.
Proof.
  rewrite <- Qlt_bool_iff. unfold Qlt_bool.
  destruct (Qle_bool x y); simpl; split; congruence.
Qed.

Lemma Qtrunc_div (a b : Z) :
  b <> 0 -> Qtrunc (inject_Z a / inject_Z b) = Z.quot a b.
Proof.
  intro Hb. unfold Qtrunc, Qdiv, Qinv, Qmult, inject_Z.
  destruct b as [|p|p]; [congruence| |]; simpl.
  - rewrite Z.mul_1_r. reflexivity.
  - rewrite <- (Z.quot_opp_opp a (Z.neg p)) by discriminate.
    simpl. f_equal. lia.
Qed.

Lemma Qtrunc_floor (q : Q) : (0 <= q)%Q -> Qtrunc q = Qfloor q.
Proof.
  destruct q as [n d]. unfold Qle, Qtrunc, Qfloor. simpl. intro H.
  apply Z.quot_div_nonneg; lia.
Qed.

Lemma Qtrunc_le (p q : Q) : (p <= q)%Q -> Qtrunc p <= Qtrunc q.
Proof.
  intro H.
  destruct (Qlt_le_dec p 0) as [Hp|Hp]; destruct (Qlt_le_dec q 0) as [Hq|Hq].
  - (* both negative: trunc x = - floor (- x) *)
    assert (T : forall x : Q, (x < 0)%Q -> Qtrunc x = - Qfloor (- x)).
    { intros [n d]. unfold Qlt, Qtrunc, Qfloor, Qopp. simpl. intro Hx.
      rewrite <- (Z.opp_involutive n) at 1.
      rewrite Z.quot_opp_l by discriminate.
      f_equal. apply Z.quot_div_nonneg; lia. }
    rewrite (T p Hp), (T q Hq).
    apply Z.opp_le_mono. rewrite !Z.opp_involutive.
    apply Qfloor_resp_le. apply Qopp_le_compat. exact H.
  - assert (Tp : Qtrunc p <= 0).
    { destruct p as [n d]. unfold Qlt, Qtrunc in *. simpl in *.
      apply Z.quot_le_upper_bound; lia. }
    rewrite (Qtrunc_floor q Hq).
    assert (0 <= Qfloor q).
    { change 0 with (Qfloor 0). apply Qfloor_resp_le. exact Hq. }
    lia.
  - exfalso. apply (Qlt_irrefl 0).
    apply Qle_lt_trans with q; [|exact Hq].
    apply Qle_trans with p; assumption.
  - rewrite (Qtrunc_floor p Hp), (Qtrunc_floor q Hq).
    apply Qfloor_resp_le. exact H.
Qed.

(** ** Results *)

Lemma bind_ok {A B : Type} (r : result A) (k : A -> result B) (b : B) :
  bind r k = Ok b -> exists a, r = Ok a /\ k a = Ok b.
Proof.
  destruct r as [a|e]; simpl; intro H; [eauto|discriminate].
Qed.

Ltac inv_bind H :=
  let a := fresh "v" in
  let E := fresh "E" in
  apply bind_ok in H; destruct H as [a [E H]].

(** ** Reading rows *)

Lemma getwn_ok_range (l : lbl) (i : Z) (w : Q) :
  getwn l i = Ok w ->
  0 <= i < Z.of_nat (List.length (wnrows l))
  /\ nth_error (wnrows l) (Z.to_nat i) = Some w.
Proof.
  unfold getwn. destruct (i <? 0) eqn:Ei; [discriminate|].
  apply Z.ltb_ge in Ei.
  destruct (nth_error (wnrows l) (Z.to_nat i)) as [w'|] eqn:En; [|discriminate].
  intro H. injection H as ->.
  split; [|reflexivity].
  assert (Hn : (Z.to_nat i < List.length (wnrows l))%nat).
  { apply nth_error_Some. congruence. }
  lia.
Qed.

Lemma getwn_total (l : lbl) (i : Z) :
  0 <= i < Z.of_nat (List.length (wnrows l)) -> exists w, getwn l i = Ok w.
Proof.
  intros [H0 H1]. unfold getwn.
  destruct (i <? 0) eqn:Ei; [apply Z.ltb_lt in Ei; lia|].
  destruct (nth_error (wnrows l) (Z.to_nat i)) as [w|] eqn:En; [eauto|].
  apply nth_error_None in En. lia.
Qed.

(** ** Binary search *)

Lemma mid_between (lo hi : Z) :
  1 < hi - lo -> lo < Z.quot (hi + lo) 2 < hi.
Proof.
  intro H.
  pose proof (Z.quot_rem' (hi + lo) 2) as E.
  destruct (Z_le_gt_dec 0 (hi + lo)) as [Hs|Hs].
  - pose proof (Z.rem_bound_pos (hi + lo) 2 Hs ltac:(lia)). lia.
  - pose proof (Z.rem_nonpos (hi + lo) 2 ltac:(lia) ltac:(lia)).
    pose proof (Z.rem_bound_abs (hi + lo) 2 ltac:(lia)). lia.
Qed.

(** The depth handed to [bs_rec] by [bs] is never exhausted: any two
    depths that cover the interval give the same answer. *)
Lemma bs_rec_depth (l : lbl) (val : Q) :
  forall d d' lo hi,
    hi - lo <= Z.of_nat d + 1 -> hi - lo <= Z.of_nat d' + 1 ->
    bs_rec d l val lo hi = bs_rec d' l val lo hi.
Proof.
  induction d as [|d IH]; intros d' lo hi H H'.
  - destruct d'; [reflexivity|]. simpl.
    destruct (getwn l 0); simpl; [|reflexivity].
    destruct (Qle_bool val a); [reflexivity|].
    destruct (getwn l (nlines l - 1)); simpl; [|reflexivity].
    destruct (Qle_bool a0 val); [reflexivity|].
    destruct (hi - lo <=? 1) eqn:E; [reflexivity|].
    apply Z.leb_gt in E. lia.
  - simpl.
    destruct (getwn l 0) as [w0|] eqn:E0; simpl;
      [|destruct d'; simpl; rewrite E0; reflexivity].
    destruct (Qle_bool val w0) eqn:C0;
      [destruct d'; simpl; rewrite E0; simpl; rewrite C0; reflexivity|].
    destruct (getwn l (nlines l - 1)) as [wN|] eqn:EN; simpl;
      [|destruct d'; simpl; rewrite E0; simpl; rewrite C0, EN; reflexivity].
    destruct (Qle_bool wN val) eqn:CN;
      [destruct d'; simpl; rewrite E0; simpl; rewrite C0, EN; simpl;
       rewrite CN; reflexivity|].
    destruct (hi - lo <=? 1) eqn:E;
      [destruct d'; simpl; rewrite E0; simpl; rewrite C0, EN; simpl;
       rewrite CN, E; reflexivity|].
    apply Z.leb_gt in E.
    destruct d' as [|d']; [lia|].
    simpl. rewrite E0. simpl. rewrite C0, EN. simpl. rewrite CN.
    apply Z.leb_gt in E. rewrite E. apply Z.leb_gt in E.
    pose proof (mid_between lo hi E) as M.
    destruct (getwn l (Z.quot (hi + lo) 2)); simpl; [|reflexivity].
    destruct (Qlt_bool val a); apply IH; lia.
Qed.

(** The source's recursion, as an equation on [bs]. *)
Lemma bs_unfold (l : lbl) (val : Q) (lo hi : Z) :
  bs l val lo hi =
  (w0 <- getwn l 0 ;;
   if Qle_bool val w0 then Ok 0 else
   wN <- getwn l (nlines l - 1) ;;
   if Qle_bool wN val then Ok (nlines l - 1) else
   if hi - lo <=? 1 then
     whi <- getwn l hi ;;
     wlo <- getwn l lo ;;
     if Qlt_bool (Qabs (val - whi)) (Qabs (val - wlo)) then Ok hi else Ok lo
   else
     let mid := Z.quot (hi + lo) 2 in
     wm <- getwn l mid ;;
     if Qlt_bool val wm then bs l val lo mid else bs l val mid hi).
Proof.
  unfold bs.
  destruct (Z.to_nat (hi - lo)) as [|d] eqn:Ed.
  - simpl.
    destruct (getwn l 0); simpl; [|reflexivity].
    destruct (Qle_bool val a); [reflexivity|].
    destruct (getwn l (nlines l - 1)); simpl; [|reflexivity].
    destruct (Qle_bool a0 val); [reflexivity|].
    destruct (hi - lo <=? 1) eqn:E; [reflexivity|].
    apply Z.leb_gt in E. lia.
  - simpl.
    destruct (getwn l 0); simpl; [|reflexivity].
    destruct (Qle_bool val a); [reflexivity|].
    destruct (getwn l (nlines l - 1)); simpl; [|reflexivity].
    destruct (Qle_bool a0 val); [reflexivity|].
    destruct (hi - lo <=? 1) eqn:E; [reflexivity|].
    apply Z.leb_gt in E.
    pose proof (mid_between lo hi E) as M.
    destruct (getwn l (Z.quot (hi + lo) 2)); simpl; [|reflexivity].
    destruct (Qlt_bool val a1); apply bs_rec_depth; lia.
Qed.

(** Induction that follows the recursion of [bs]: the interval shrinks
    whenever it is wider than one. *)
Lemma bs_induction (P : Z -> Z -> Prop) :
  (forall lo hi,
      (forall lo' hi', 1 < hi - lo -> hi' - lo' < hi - lo -> P lo' hi') ->
      P lo hi) ->
  forall lo hi, P lo hi.
Proof.
  intro step.
  assert (G : forall n lo hi, (Z.to_nat (hi - lo) <= n)%nat -> P lo hi).
  { induction n as [|n IH]; intros lo hi Hn; apply step; intros lo' hi' H1 H2.
    - lia.
    - apply IH. lia. }
  intros lo hi. apply (G (Z.to_nat (hi - lo))). lia.
Qed.

(** What [bs] can answer: 0 at or below the first row, [nlines-1] at or
    above the last row, and otherwise a row between the two bounds. *)
Lemma bs_result (l : lbl) (val : Q) :
  forall lo hi r,
    bs l val lo hi = Ok r ->
    exists w0, getwn l 0 = Ok w0 /\
      (((val <= w0)%Q /\ r = 0) \/
       ((w0 < val)%Q /\ exists wN, getwn l (nlines l - 1) = Ok wN /\
          (((wN <= val)%Q /\ r = nlines l - 1) \/
           ((val < wN)%Q /\ Z.min lo hi <= r <= Z.max lo hi
            /\ exists w, getwn l r = Ok w)))).
Proof.
  intros lo hi. pattern lo, hi. apply bs_induction. clear lo hi.
  intros lo hi IH r H.
  rewrite bs_unfold in H.
  destruct (getwn l 0) as [w0|] eqn:E0; simpl in H; [|discriminate].
  exists w0. split; [reflexivity|].
  destruct (Qle_bool val w0) eqn:C0.
  { left. apply Qle_bool_iff in C0. injection H as <-. auto. }
  right. apply Qle_bool_false_iff in C0. split; [exact C0|].
  destruct (getwn l (nlines l - 1)) as [wN|] eqn:EN; simpl in H; [|discriminate].
  exists wN. split; [reflexivity|].
  destruct (Qle_bool wN val) eqn:CN.
  { left. apply Qle_bool_iff in CN. injection H as <-. auto. }
  right. apply Qle_bool_false_iff in CN. split; [exact CN|].
  destruct (hi - lo <=? 1) eqn:E.
  - destruct (getwn l hi) as [whi|] eqn:Ehi; simpl in H; [|discriminate].
    destruct (getwn l lo) as [wlo|] eqn:Elo; simpl in H; [|discriminate].
    destruct (Qlt_bool _ _); injection H as <-; split; eauto; lia.
  - apply Z.leb_gt in E. pose proof (mid_between lo hi E) as M.
    cbv zeta in H.
    destruct (getwn l (Z.quot (hi + lo) 2)) as [wm|] eqn:Em; simpl in H;
      [|discriminate].
    destruct (Qlt_bool val wm).
    + destruct (IH lo (Z.quot (hi + lo) 2) E ltac:(lia) r H)
        as [w0' [E0' [[A _]|[_ [wN' [EN' [[A _]|[_ [B D]]]]]]]]].
      * assert (X : w0' = w0) by congruence. subst w0'.
        exfalso. exact (Qlt_not_le _ _ C0 A).
      * assert (X : wN' = wN) by congruence. subst wN'.
        exfalso. exact (Qlt_not_le _ _ CN A).
      * split; [lia|exact D].
    + destruct (IH (Z.quot (hi + lo) 2) hi E ltac:(lia) r H)
        as [w0' [E0' [[A _]|[_ [wN' [EN' [[A _]|[_ [B D]]]]]]]]].
      * assert (X : w0' = w0) by congruence. subst w0'.
        exfalso. exact (Qlt_not_le _ _ C0 A).
      * assert (X : wN' = wN) by congruence. subst wN'.
        exfalso. exact (Qlt_not_le _ _ CN A).
      * split; [lia|exact D].
Qed.

(** Saturation at the first row, whatever the bounds. *)
Lemma bs_low (l : lbl) (val w0 : Q) (lo hi : Z) :
  getwn l 0 = Ok w0 -> (val <= w0)%Q -> bs l val lo hi = Ok 0.
Proof.
  intros E0 H. rewrite bs_unfold, E0. simpl.
  apply Qle_bool_iff in H. rewrite H. reflexivity.
Qed.

(** Saturation at the last row, whatever the bounds, once the first test
    has failed. *)
Lemma bs_high (l : lbl) (val w0 wN : Q) (lo hi : Z) :
  getwn l 0 = Ok w0 -> (w0 < val)%Q ->
  getwn l (nlines l - 1) = Ok wN -> (wN <= val)%Q ->
  bs l val lo hi = Ok (nlines l - 1).
Proof.
  intros E0 H0 EN HN. rewrite bs_unfold, E0. simpl.
  apply Qle_bool_false_iff in H0. rewrite H0, EN. simpl.
  apply Qle_bool_iff in HN. rewrite HN. reflexivity.
Qed.

(** Every answer of [bs] is a row that can be read. *)
Lemma bs_readable (l : lbl) (val : Q) (lo hi r : Z) :
  bs l val lo hi = Ok r -> exists w, getwn l r = Ok w.
Proof.
  intro H. apply bs_result in H.
  destruct H as [w0 [E0 [[_ ->]|[_ [wN [EN [[_ ->]|[_ [_ D]]]]]]]]]; eauto.
Qed.

Lemma bs_nonneg (l : lbl) (val : Q) (lo hi r : Z) :
  bs l val lo hi = Ok r -> 0 <= r.
Proof.
  intro H. apply bs_readable in H. destruct H as [w H].
  apply getwn_ok_range in H. lia.
Qed.

(** On a well-formed source, [bs] between two rows of the file returns. *)
Lemma bs_total (l : lbl) (val : Q) :
  well_formed l ->
  forall lo hi, 0 <= lo -> lo <= hi -> hi <= nlines l - 1 ->
    exists r, bs l val lo hi = Ok r.
Proof.
  intros [W1 W2] lo hi. pattern lo, hi. apply bs_induction. clear lo hi.
  intros lo hi IH H0 H1 H2.
  rewrite bs_unfold.
  destruct (getwn_total l 0 ltac:(lia)) as [w0 E0]. rewrite E0. simpl.
  destruct (Qle_bool val w0); [eauto|].
  destruct (getwn_total l (nlines l - 1) ltac:(lia)) as [wN EN].
  rewrite EN. simpl.
  destruct (Qle_bool wN val); [eauto|].
  destruct (hi - lo <=? 1) eqn:E.
  - destruct (getwn_total l hi ltac:(lia)) as [whi Ehi]. rewrite Ehi. simpl.
    destruct (getwn_total l lo ltac:(lia)) as [wlo Elo]. rewrite Elo. simpl.
    destruct (Qlt_bool _ _); eauto.
  - apply Z.leb_gt in E. pose proof (mid_between lo hi E) as M.
    cbv zeta.
    destruct (getwn_total l (Z.quot (hi + lo) 2) ltac:(lia)) as [wm Em].
    rewrite Em. simpl.
    destruct (Qlt_bool val wm); apply IH; lia.
Qed.

Lemma increasingb_sound (rows : list Q) :
  increasingb rows = true ->
  forall i j a b,
    (i < j)%nat -> nth_error rows i = Some a -> nth_error rows j = Some b ->
    (a < b)%Q.
Proof.
  induction rows as [|x rows IH]; intros H i j a b Hij Ha Hb.
  - destruct i; discriminate.
  - destruct rows as [|y rows].
    + destruct j as [|j]; [lia|]. destruct j; discriminate.
    + simpl in H. apply andb_true_iff in H. destruct H as [Hxy Hr].
      apply Qlt_bool_iff in Hxy.
      destruct j as [|j]; [lia|]. simpl in Hb.
      destruct i as [|i].
      * simpl in Ha. injection Ha as <-.
        destruct j as [|j].
        -- simpl in Hb. injection Hb as <-. exact Hxy.
        -- apply Qlt_trans with y; [exact Hxy|].
           apply (IH Hr 0%nat (S j) y b); [lia|reflexivity|exact Hb].
      * simpl in Ha. apply (IH Hr i j a b); [lia|exact Ha|exact Hb].
Qed.

Lemma increasingb_strictly (l : lbl) :
  increasingb (wnrows l) = true -> strictly_increasing l.
Proof.
  intros H i j a b Hi Hij Hj Ea Eb.
  apply getwn_ok_range in Ea. apply getwn_ok_range in Eb.
  apply (increasingb_sound _ H (Z.to_nat i) (Z.to_nat j)); [lia|tauto|tauto].
Qed.

(** Between a row at or below [val] and a row above it, on a strictly
    increasing source, [bs] finds the row that holds [val]. *)
Lemma bs_finds (l : lbl) (v w0 wN : Q) (i : Z) :
  well_formed l -> strictly_increasing l ->
  getwn l i = Ok v ->
  getwn l 0 = Ok w0 -> (w0 < v)%Q ->
  getwn l (nlines l - 1) = Ok wN -> (v < wN)%Q ->
  forall lo hi, 0 <= lo -> lo <= i -> i < hi -> hi <= nlines l - 1 ->
    bs l v lo hi = Ok i.
Proof.
  intros [W1 W2] Inc Ei E0 H0 EN HN lo hi.
  pattern lo, hi. apply bs_induction. clear lo hi.
  intros lo hi IH L0 L1 L2 L3.
  rewrite bs_unfold, E0. cbn [bind].
  apply Qle_bool_false_iff in H0. rewrite H0, EN. cbn [bind].
  apply Qle_bool_false_iff in HN. rewrite HN.
  destruct (hi - lo <=? 1) eqn:E.
  - apply Z.leb_le in E.
    assert (lo = i) by lia. subst lo.
    destruct (getwn_total l hi ltac:(lia)) as [whi Ehi].
    rewrite Ehi, Ei. cbn [bind].
    assert (F : Qlt_bool (Qabs (v - whi)) (Qabs (v - v)) = false).
    { apply Qlt_bool_false_iff.
      apply Qle_trans with 0%Q; [|apply Qabs_nonneg].
      assert (Z0 : (v - v == 0)%Q) by ring.
      rewrite (Qabs_wd _ _ Z0). apply Qle_refl. }
    rewrite F. reflexivity.
  - apply Z.leb_gt in E. pose proof (mid_between lo hi E) as M.
    cbv zeta.
    destruct (getwn_total l (Z.quot (hi + lo) 2) ltac:(lia)) as [wm Em].
    rewrite Em. cbn [bind].
    destruct (Qlt_bool v wm) eqn:Cm.
    + apply Qlt_bool_iff in Cm. apply IH; try lia.
      destruct (Z_lt_le_dec i (Z.quot (hi + lo) 2)) as [G|G]; [exact G|].
      exfalso. destruct (Z.eq_dec (Z.quot (hi + lo) 2) i) as [Q1|Q1].
      * rewrite Q1 in Em. assert (wm = v) by congruence. subst wm.
        exact (Qlt_irrefl _ Cm).
      * pose proof (Inc (Z.quot (hi + lo) 2) i wm v ltac:(lia) ltac:(lia)
                        ltac:(lia) Em Ei) as X.
        exact (Qlt_irrefl _ (Qlt_trans _ _ _ Cm X)).
    + apply Qlt_bool_false_iff in Cm. apply IH; try lia.
      destruct (Z_le_gt_dec (Z.quot (hi + lo) 2) i) as [G|G]; [exact G|].
      exfalso.
      pose proof (Inc i (Z.quot (hi + lo) 2) v wm ltac:(lia) ltac:(lia)
                      ltac:(lia) Ei Em) as X.
      exact (Qlt_not_le _ _ X Cm).
Qed.

(** C6. On a source whose wavenumbers increase strictly, searching the
    whole file for the wavenumber of row [i] returns [i]:
    [bs(nu(i), 0, n-1) = i] for every [0 <= i <= n-1]. *)
Theorem bs_idempotent (l : lbl) (i : Z) :
  well_formed l -> strictly_increasing l ->
  0 <= i <= nlines l - 1 ->
  exists v, getwn l i = Ok v /\ bs l v 0 (nlines l - 1) = Ok i.
Proof.
  intros W Inc Hi.
  pose proof W as [W1 W2].
  destruct (getwn_total l i ltac:(lia)) as [v Ei].
  exists v. split; [exact Ei|].
  destruct (getwn_total l 0 ltac:(lia)) as [w0 E0].
  destruct (getwn_total l (nlines l - 1) ltac:(lia)) as [wN EN].
  destruct (Z.eq_dec i 0) as [I0|I0].
  - subst i. apply (bs_low l v v); [exact Ei|apply Qle_refl].
  - assert (H0 : (w0 < v)%Q) by (apply (Inc 0 i); (lia || assumption)).
    destruct (Z.eq_dec i (nlines l - 1)) as [IN|IN].
    + subst i. apply (bs_high l v w0 v); (assumption || apply Qle_refl).
    + assert (HN : (v < wN)%Q)
        by (apply (Inc i (nlines l - 1)); (lia || assumption)).
      apply (bs_finds l v w0 wN i); (assumption || lia).
Qed.

Lemma well_formed_source (rows : list Q) :
  rows <> [] -> well_formed (source rows).
Proof.
  intro H. unfold well_formed, source. simpl.
  destruct rows; [congruence|]. simpl List.length. lia.
Qed.

Lemma bs_idempotent_witness :
  exists v, getwn (source (ramp 100 7)) 3 = Ok v
            /\ bs (source (ramp 100 7)) v 0 6 = Ok 3.
Proof.
  apply (bs_idempotent (source (ramp 100 7)) 3).
  - apply well_formed_source. discriminate.
  - apply increasingb_strictly. reflexivity.
  - simpl. lia.
Defined.

(** C10, as stated, fails on a file whose rows share one wavenumber: the
    value is at or above the last row, and the answer is row 0. *)
Lemma bs_saturation_tied_rows :
  ~ saturates_both_ways (source [5%Q; 5%Q]) 5 0 1.
Proof.
  intros [_ H].
  specialize (H 5%Q eq_refl (Qle_refl _)).
  vm_compute in H. discriminate.
Qed.

(** C10 (amended). Whatever [lo] and [hi] are, [bs] answers 0 when
    [val <= nu(0)], and answers [nlines-1] when [val >= nu(nlines-1)] and
    [val > nu(0)] (the test on the first row comes first).  The answer can
    therefore lie outside [lo, hi]: it does whenever [val <= nu(0)] and
    [0 < lo <= hi]. *)
Theorem bs_saturation (l : lbl) (val : Q) (lo hi : Z) (w0 : Q) :
  getwn l 0 = Ok w0 ->
  ((val <= w0)%Q -> bs l val lo hi = Ok 0)
  /\ (forall wN, getwn l (nlines l - 1) = Ok wN ->
        (w0 < val)%Q -> (wN <= val)%Q ->
        bs l val lo hi = Ok (nlines l - 1))
  /\ ((val <= w0)%Q -> 0 < lo -> lo <= hi ->
        exists r, bs l val lo hi = Ok r /\ ~ (lo <= r <= hi)).
Proof.
  intro E0. split; [|split].
  - intro H. exact (bs_low l val w0 lo hi E0 H).
  - intros wN EN H0 HN. exact (bs_high l val w0 wN lo hi E0 H0 EN HN).
  - intros H L0 L1. exists 0. split; [exact (bs_low l val w0 lo hi E0 H)|lia].
Qed.

Lemma bs_saturation_witness :
  bs (source (ramp 100 7)) 50 5 6 = Ok 0
  /\ bs (source (ramp 100 7)) 200 1 2 = Ok 6.
Proof.
  split.
  - apply (proj1 (bs_saturation (source (ramp 100 7)) 50 5 6 100 eq_refl)).
    discriminate.
  - apply (proj1 (proj2 (bs_saturation (source (ramp 100 7)) 200 1 2 100
                           eq_refl)) 106%Q).
    + reflexivity.
    + reflexivity.
    + discriminate.
Defined.

(** ** Opening a source *)

Lemma readline_nonempty (c : ascii) (s : string) :
  1 <= len (readline (String c s)).
Proof.
  unfold len. simpl. destruct (Ascii.eqb c "010"); simpl String.length; lia.
Qed.

Lemma readline_length (s : string) : len (readline s) <= len s.
Proof.
  unfold len. induction s as [|c s IH]; simpl; [lia|].
  destruct (Ascii.eqb c "010"); simpl String.length; lia.
Qed.




(** ** The index range of a source *)

Lemma bs_bounds (l : lbl) (val : Q) (lo hi r : Z) :
  0 <= lo -> lo <= hi -> hi <= nlines l - 1 ->
  bs l val lo hi = Ok r -> 0 <= r <= nlines l - 1.
Proof.
  intros H0 H1 H2 H.
  apply bs_result in H.
  destruct H as [w0 [E0 [[_ ->]|[_ [wN [EN [[_ ->]|[_ [B _]]]]]]]]]; lia.
Qed.

Lemma widen_left_spec (l : lbl) (wnmin : Q) :
  forall n b r,
    b <= Z.of_nat n ->
    widen_left n l wnmin b = Ok r ->
    r <= b /\ (0 <= b -> 0 <= r)
    /\ (forall j, r <= j < b ->
          exists w, getwn l j = Ok w /\ (wnmin <= w)%Q)
    /\ (r <= 0 \/ exists w, getwn l (r - 1) = Ok w /\ (w < wnmin)%Q).
Proof.
  induction n as [|n IH]; intros b r Hn H.
  - simpl in H. injection H as <-.
    repeat split; try lia; left; lia.
  - simpl in H. destruct (0 <? b) eqn:Eb.
    + apply Z.ltb_lt in Eb.
      destruct (getwn l (b - 1)) as [w|] eqn:Ew; simpl in H; [|discriminate].
      destruct (Qle_bool wnmin w) eqn:Cw.
      * apply Qle_bool_iff in Cw.
        destruct (IH (b - 1) r ltac:(lia) H) as [A [B [D F]]].
        repeat split; try lia; [|exact F].
        intros j Hj. destruct (Z.eq_dec j (b - 1)) as [->|Hne].
        -- eauto.
        -- apply D. lia.
      * apply Qle_bool_false_iff in Cw. injection H as <-.
        repeat split; try lia; right; eauto.
    + apply Z.ltb_ge in Eb. injection H as <-.
      repeat split; try lia; left; lia.
Qed.

Lemma widen_left_total (l : lbl) (wnmin : Q) :
  forall n b, b <= Z.of_nat (List.length (wnrows l)) ->
    exists r, widen_left n l wnmin b = Ok r.
Proof.
  induction n as [|n IH]; intros b Hb; simpl; [eauto|].
  destruct (0 <? b) eqn:Eb; [|eauto].
  apply Z.ltb_lt in Eb.
  destruct (getwn_total l (b - 1) ltac:(lia)) as [w Ew]. rewrite Ew. simpl.
  destruct (Qle_bool wnmin w); [|eauto]. apply IH. lia.
Qed.

Lemma widen_right_spec (l : lbl) (wnmin : Q) :
  forall n b r,
    nlines l - 1 - b <= Z.of_nat n ->
    widen_right n l wnmin b = Ok r ->
    b <= r /\ (b <= nlines l - 1 -> r <= nlines l - 1)
    /\ (forall j, b < j <= r ->
          exists w, getwn l j = Ok w /\ (w <= wnmin)%Q)
    /\ (nlines l - 1 <= r
        \/ exists w, getwn l (r + 1) = Ok w /\ (wnmin < w)%Q).
Proof.
  induction n as [|n IH]; intros b r Hn H.
  - simpl in H. injection H as <-.
    repeat split; try lia; left; lia.
  - simpl in H. destruct (b <? nlines l - 1) eqn:Eb.
    + apply Z.ltb_lt in Eb.
      destruct (getwn l (b + 1)) as [w|] eqn:Ew; simpl in H; [|discriminate].
      destruct (Qle_bool w wnmin) eqn:Cw.
      * apply Qle_bool_iff in Cw.
        destruct (IH (b + 1) r ltac:(lia) H) as [A [B [D F]]].
        repeat split; try lia; [|exact F].
        intros j Hj. destruct (Z.eq_dec j (b + 1)) as [->|Hne].
        -- eauto.
        -- apply D. lia.
      * apply Qle_bool_false_iff in Cw. injection H as <-.
        repeat split; try lia; right; eauto.
    + apply Z.ltb_ge in Eb. injection H as <-.
      repeat split; try lia; left; lia.
Qed.

Lemma widen_right_total (l : lbl) (wnmin : Q) :
  nlines l <= Z.of_nat (List.length (wnrows l)) ->
  forall n b, -1 <= b -> exists r, widen_right n l wnmin b = Ok r.
Proof.
  intro W. induction n as [|n IH]; intros b Hb; simpl; [eauto|].
  destruct (b <? nlines l - 1) eqn:Eb; [|eauto].
  apply Z.ltb_lt in Eb.
  destruct (getwn_total l (b + 1) ltac:(lia)) as [w Ew]. rewrite Ew. simpl.
  destruct (Qle_bool w wnmin); [|eauto]. apply IH. lia.
Qed.

(** C7. The driver's index range of a source: [i0] starts at
    [bs(wnmin, 0, nlines-1)] and moves left over every row with
    [nu >= wnmin] next to it; [iN] starts at [bs(wnmax, i0, nlines-1)] and
    moves right over every row with [nu <= wnmin] next to it -- the
    comparison on the right is with [wnmin], not [wnmax]. *)
Theorem index_range_widening (l : lbl) (wnmin wnmax : Q) :
  well_formed l ->
  exists b0 i0 bN iN,
    bs l wnmin 0 (nlines l - 1) = Ok b0
    /\ bs l wnmax i0 (nlines l - 1) = Ok bN
    /\ index_range l wnmin wnmax = Ok (i0, iN)
    /\ (0 <= i0 <= b0
        /\ (forall j, i0 <= j < b0 ->
              exists w, getwn l j = Ok w /\ (wnmin <= w)%Q)
        /\ (i0 = 0 \/ exists w, getwn l (i0 - 1) = Ok w /\ (w < wnmin)%Q))
    /\ (bN <= iN <= nlines l - 1
        /\ (forall j, bN < j <= iN ->
              exists w, getwn l j = Ok w /\ (w <= wnmin)%Q)
        /\ (iN = nlines l - 1
            \/ exists w, getwn l (iN + 1) = Ok w /\ (wnmin < w)%Q)).
Proof.
  intro W. pose proof W as [W1 W2].
  destruct (bs_total l wnmin W 0 (nlines l - 1) ltac:(lia) ltac:(lia)
              ltac:(lia)) as [b0 Eb0].
  pose proof (bs_bounds l wnmin 0 (nlines l - 1) b0 ltac:(lia) ltac:(lia)
                ltac:(lia) Eb0) as Bb0.
  destruct (widen_left_total l wnmin (Z.to_nat b0) b0 ltac:(lia)) as [i0 Ei0].
  destruct (widen_left_spec l wnmin (Z.to_nat b0) b0 i0 ltac:(lia) Ei0)
    as [L1 [L2 [L3 L4]]].
  destruct (bs_total l wnmax W i0 (nlines l - 1) ltac:(lia) ltac:(lia)
              ltac:(lia)) as [bN EbN].
  pose proof (bs_bounds l wnmax i0 (nlines l - 1) bN ltac:(lia) ltac:(lia)
                ltac:(lia) EbN) as BbN.
  destruct (widen_right_total l wnmin W2 (Z.to_nat (nlines l - 1 - bN)) bN
              ltac:(lia)) as [iN EiN].
  destruct (widen_right_spec l wnmin (Z.to_nat (nlines l - 1 - bN)) bN iN
              ltac:(lia) EiN) as [R1 [R2 [R3 R4]]].
  exists b0, i0, bN, iN.
  split; [exact Eb0|]. split; [exact EbN|].
  split.
  { unfold index_range. rewrite Eb0. simpl. rewrite Ei0. simpl.
    rewrite EbN. simpl. rewrite EiN. reflexivity. }
  split.
  - split; [lia|]. split; [exact L3|].
    destruct L4 as [L4|L4]; [left; lia|right; exact L4].
  - split; [lia|]. split; [exact R3|].
    destruct R4 as [R4|R4]; [left; lia|right; exact R4].
Qed.

(** Rows at [wnmax] to the right of [iN] are not taken in: the window is
    [3, 5], the rows are 5, 5, 5, 7, and the range ends at row 0. *)
Example index_range_right_edge :
  index_range (source [5%Q; 5%Q; 5%Q; 7%Q]) 3 5 = Ok (0, 0).
Proof. reflexivity. Qed.

Lemma index_range_widening_witness :
  exists b0 i0 bN iN,
    bs (source (ramp 100 7)) 102 0 6 = Ok b0
    /\ bs (source (ramp 100 7)) 104 i0 6 = Ok bN
    /\ index_range (source (ramp 100 7)) 102 104 = Ok (i0, iN)
    /\ (0 <= i0 <= b0
        /\ (forall j, i0 <= j < b0 ->
              exists w, getwn (source (ramp 100 7)) j = Ok w /\ (102 <= w)%Q)
        /\ (i0 = 0 \/ exists w, getwn (source (ramp 100 7)) (i0 - 1) = Ok w
                                /\ (w < 102)%Q))
    /\ (bN <= iN <= 6
        /\ (forall j, bN < j <= iN ->
              exists w, getwn (source (ramp 100 7)) j = Ok w /\ (w <= 102)%Q)
        /\ (iN = 6
            \/ exists w, getwn (source (ramp 100 7)) (iN + 1) = Ok w
                         /\ (102 < w)%Q)).
Proof.
  apply (index_range_widening (source (ramp 100 7)) 102 104).
  apply well_formed_source. discriminate.
Defined.

(** ** Exit status of the driver *)

(** C1. A fatal error detected by the driver should end the process with
    a non-zero exit code.  The code does not: with the invalid
    [dbtype = "hitemp"] the driver reaches its error message and leaves
    through [sys.exit(0)], exit status 0; the same happens for two HITRAN
    files that name different molecules. *)
Lemma repack_error_exit_zero :
  stops_on_error_message ["01_hit12.par"%string] "hitemp"
  /\ exit_status (repack_prologue ["01_hit12.par"%string] "hitemp"
                    300 1000 350 50 1050 50) = 0
  /\ stops_on_error_message ["01_hit12.par"; "02_hit12.par"]%string "hitran"
  /\ exit_status (repack_prologue ["01_hit12.par"; "02_hit12.par"]%string
                    "hitran" 300 1000 350 50 1050 50) = 0.
Proof.
  split; [left; split; discriminate|].
  split; [reflexivity|].
  split; [|reflexivity].
  right. eexists. split; [reflexivity|]. vm_compute. reflexivity.
Qed.

(** The same for every input: when the two samplings are valid, an invalid
    [dbtype] and file names of more than one molecule both end the run
    with [sys.exit(0)], exit status 0, while an error that surfaces as any
    other exception ends with status 1. *)
Lemma repack_exit_status (files : list string) (dbtype : string)
    (tmin tmax dtemp wnmin wnmax dwn : Q) (ntemp nwave : Z) :
  sampling tmin tmax dtemp = Ok ntemp ->
  sampling wnmin wnmax dwn = Ok nwave ->
  (stops_on_error_message files dbtype ->
   repack_prologue files dbtype tmin tmax dtemp wnmin wnmax dwn
   = Raise (SystemExit 0)
   /\ exit_status
        (repack_prologue files dbtype tmin tmax dtemp wnmin wnmax dwn) = 0)
  /\ (forall e,
        repack_prologue files dbtype tmin tmax dtemp wnmin wnmax dwn
        = Raise e ->
        (forall code, e <> SystemExit code) ->
        exit_status
          (repack_prologue files dbtype tmin tmax dtemp wnmin wnmax dwn) = 1).
Proof.
  intros Et Ew. split.
  - intro H.
    assert (G : repack_prologue files dbtype tmin tmax dtemp wnmin wnmax dwn
                = Raise (SystemExit 0)).
    { unfold repack_prologue. rewrite Et, Ew. cbn [bind].
      destruct (negb (String.eqb dbtype "hitran" || String.eqb dbtype "exomol"))
        eqn:Ed; [reflexivity|].
      destruct H as [[H1 H2]|[infos [Ep Hn]]].
      - apply negb_false_iff, orb_true_iff in Ed.
        destruct Ed as [Ed|Ed]; apply String.eqb_eq in Ed; congruence.
      - rewrite Ep. cbn [bind].
        apply Nat.ltb_lt in Hn. rewrite Hn. reflexivity. }
    rewrite G. split; reflexivity.
  - intros e He Hne. rewrite He.
    destruct e; try reflexivity. exfalso. exact (Hne code eq_refl).
Qed.

Lemma repack_exit_status_witness :
  repack_prologue ["01_hit12.par"; "02_hit12.par"]%string "hitran"
                  300 1000 350 50 1050 50
  = Raise (SystemExit 0)
  /\ exit_status (repack_prologue ["01_hit12.par"; "02_hit12.par"]%string
                    "hitran" 300 1000 350 50 1050 50) = 0.
Proof.
  apply (proj1 (repack_exit_status ["01_hit12.par"; "02_hit12.par"]%string
                  "hitran" 300 1000 350 50 1050 50 3 21
                  eq_refl eq_refl)).
  right. eexists. split; [reflexivity|]. vm_compute. reflexivity.
Defined.

(** ** The balancer *)

Lemma Qred_half_between (a b : Q) :
  (a < b)%Q ->
  (a < Qred ((1 # 2) * (b + a)) /\ Qred ((1 # 2) * (b + a)) < b)%Q.
Proof.
  intro H. rewrite Qred_correct. split; lra.
Qed.

Lemma wnbalance_step (d : nat) (lbls : list lbl) (wnmin wnmax : Q)
    (targetsize : Q) (zero : Z) (tol : Q) :
  wnbalance (S d) lbls wnmin wnmax targetsize zero tol =
  (ntarget <- count lbls (Qred ((1 # 2) * (wnmax + wnmin))) ;;
   if Qlt_bool (Qabs (inject_Z (ntarget - zero) - targetsize))
               (tol * targetsize)
   then Ok (Qred ((1 # 2) * (wnmax + wnmin)))
   else if Qlt_bool (inject_Z (ntarget - zero)) targetsize
   then wnbalance d lbls (Qred ((1 # 2) * (wnmax + wnmin))) wnmax
                  targetsize zero tol
   else wnbalance d lbls wnmin (Qred ((1 # 2) * (wnmax + wnmin)))
                  targetsize zero tol).
Proof. reflexivity. Qed.

(** Whatever [wnbalance] returns passed its test, and lies strictly inside
    a non-empty window. *)
Lemma wnbalance_sound (lbls : list lbl) (targetsize : Q) (zero : Z) (tol : Q) :
  forall limit wnmin wnmax w,
    wnbalance limit lbls wnmin wnmax targetsize zero tol = Ok w ->
    tolerance_met lbls w targetsize zero tol
    /\ ((wnmin < wnmax)%Q -> (wnmin < w /\ w < wnmax)%Q).
Proof.
  induction limit as [|d IH]; intros wnmin wnmax w H; [discriminate|].
  rewrite wnbalance_step in H.
  destruct (count lbls (Qred ((1 # 2) * (wnmax + wnmin)))) as [n|] eqn:En;
    cbn [bind] in H; [|discriminate].
  destruct (Qlt_bool (Qabs (inject_Z (n - zero) - targetsize))
                     (tol * targetsize)) eqn:Ct.
  - injection H as <-. split.
    + exists n. split; [exact En|]. apply Qlt_bool_iff. exact Ct.
    + intro L. apply Qred_half_between. exact L.
  - destruct (Qlt_bool (inject_Z (n - zero)) targetsize).
    + destruct (IH _ _ _ H) as [A B]. split; [exact A|].
      intro L. destruct (Qred_half_between _ _ L) as [M1 M2].
      destruct (B M2) as [B1 B2]. split; [|exact B2].
      apply Qlt_trans with (Qred ((1 # 2) * (wnmax + wnmin))); assumption.
    + destruct (IH _ _ _ H) as [A B]. split; [exact A|].
      intro L. destruct (Qred_half_between _ _ L) as [M1 M2].
      destruct (B M1) as [B1 B2]. split; [exact B1|].
      apply Qlt_trans with (Qred ((1 # 2) * (wnmax + wnmin))); assumption.
Qed.

(** There is no fallback: when no wavenumber passes the test, no recursion
    limit makes [wnbalance] return a boundary. *)
Lemma wnbalance_never_accepts (lbls : list lbl) (targetsize : Q) (zero : Z)
    (tol : Q) :
  (forall w, ~ tolerance_met lbls w targetsize zero tol) ->
  forall limit wnmin wnmax,
    exists e, wnbalance limit lbls wnmin wnmax targetsize zero tol = Raise e.
Proof.
  intros Hno limit wnmin wnmax.
  destruct (wnbalance limit lbls wnmin wnmax targetsize zero tol) as [w|e]
    eqn:E; [|eauto].
  exfalso. apply wnbalance_sound in E. exact (Hno w (proj1 E)).
Qed.

(** A larger recursion limit does not change a boundary that was found. *)
Lemma wnbalance_limit_mono (lbls : list lbl) (targetsize : Q) (zero : Z)
    (tol : Q) :
  forall limit k wnmin wnmax w,
    wnbalance limit lbls wnmin wnmax targetsize zero tol = Ok w ->
    wnbalance (limit + k) lbls wnmin wnmax targetsize zero tol = Ok w.
Proof.
  induction limit as [|d IH]; intros k wnmin wnmax w H; [discriminate|].
  change (S d + k)%nat with (S (d + k)).
  rewrite wnbalance_step in H |- *.
  destruct (count lbls (Qred ((1 # 2) * (wnmax + wnmin)))) as [n|];
    cbn [bind] in H |- *; [|discriminate].
  destruct (Qlt_bool (Qabs (inject_Z (n - zero) - targetsize))
                     (tol * targetsize)); [exact H|].
  destruct (Qlt_bool (inject_Z (n - zero)) targetsize); apply IH; exact H.
Qed.

(** No integer is within 1/150 of 2/3. *)
Lemma two_thirds_off_integers (lbls : list lbl) (w : Q) (zero : Z) :
  ~ tolerance_met lbls w (2 # 3) zero (1 # 100).
Proof.
  intros [n [_ H]].
  apply Qabs_Qlt_condition in H. destruct H as [H1 H2].
  unfold Qlt, Qminus, Qplus, Qopp, Qmult, inject_Z in H1, H2.
  simpl in H1, H2. lia.
Qed.




(** ** The chunk plan *)

Lemma wnbalance_within (lbls : list lbl) (targetsize : Q) (zero : Z) (tol : Q) :
  forall limit wnmin wnmax w,
    (wnmin <= wnmax)%Q ->
    wnbalance limit lbls wnmin wnmax targetsize zero tol = Ok w ->
    (wnmin <= w /\ w <= wnmax)%Q.
Proof.
  induction limit as [|d IH]; intros wnmin wnmax w L H; [discriminate|].
  rewrite wnbalance_step in H.
  assert (M : (wnmin <= Qred ((1 # 2) * (wnmax + wnmin))
               /\ Qred ((1 # 2) * (wnmax + wnmin)) <= wnmax)%Q).
  { rewrite Qred_correct. split; lra. }
  destruct M as [M1 M2].
  destruct (count lbls (Qred ((1 # 2) * (wnmax + wnmin)))) as [n|];
    cbn [bind] in H; [|discriminate].
  destruct (Qlt_bool (Qabs (inject_Z (n - zero) - targetsize))
                     (tol * targetsize)).
  - injection H as <-. split; assumption.
  - destruct (Qlt_bool (inject_Z (n - zero)) targetsize).
    + destruct (IH _ _ _ M2 H) as [B1 B2]. split; [|exact B2].
      apply Qle_trans with (Qred ((1 # 2) * (wnmax + wnmin))); assumption.
    + destruct (IH _ _ _ M1 H) as [B1 B2]. split; [exact B1|].
      apply Qle_trans with (Qred ((1 # 2) * (wnmax + wnmin))); assumption.
Qed.

(** The range of a source in a window with [wnmin <= wnmax]. *)
Lemma index_range_ordered (l : lbl) (wnmin wnmax : Q) (i0 iN : Z) :
  (wnmin <= wnmax)%Q ->
  index_range l wnmin wnmax = Ok (i0, iN) ->
  0 <= i0 /\ located wnmax wnmin l i0 iN.
Proof.
  intros L H. unfold index_range in H.
  apply bind_ok in H. destruct H as [b0 [Eb0 H]].
  apply bind_ok in H. destruct H as [i0' [Ei0 H]].
  apply bind_ok in H. destruct H as [bN [EbN H]].
  apply bind_ok in H. destruct H as [iN' [EiN H]].
  injection H as -> ->.
  pose proof (bs_nonneg _ _ _ _ _ Eb0) as N0.
  destruct (widen_left_spec l wnmin (Z.to_nat b0) b0 i0 ltac:(lia) Ei0)
    as [L1 [L2 [_ _]]].
  destruct (widen_right_spec l wnmin (Z.to_nat (nlines l - 1 - bN)) bN iN
              ltac:(lia) EiN) as [R1 [R2 [_ _]]].
  pose proof (bs_nonneg _ _ _ _ _ EbN) as NN.
  assert (A : forall w0, getwn l 0 = Ok w0 -> (wnmin <= w0)%Q -> i0 = 0).
  { intros w0 E0 Hw. rewrite (bs_low l wnmin w0 _ _ E0 Hw) in Eb0.
    injection Eb0 as <-. lia. }
  assert (B : forall w0 wN, getwn l 0 = Ok w0 ->
                getwn l (nlines l - 1) = Ok wN ->
                (w0 < wnmax)%Q -> (wN <= wnmax)%Q -> iN = nlines l - 1).
  { intros w0 wN E0 EN H0 HN.
    rewrite (bs_high l wnmax w0 wN _ _ E0 H0 EN HN) in EbN.
    injection EbN as <-. lia. }
  split; [lia|]. unfold located.
  split; [|split; [exact A|split; [lia|exact B]]].
  pose proof (bs_result l wnmin _ _ _ Eb0) as Rb0.
  pose proof (bs_result l wnmax _ _ _ EbN) as RbN.
  destruct RbN as [w0 [E0 [[Hlow ->]|[Hgt [wN [EN RbN]]]]]].
  - assert (i0 = 0) by (apply (A w0 E0); apply Qle_trans with wnmax; assumption).
    lia.
  - pose proof (getwn_ok_range _ _ _ EN) as [GN _].
    assert (b0 <= nlines l - 1).
    { destruct Rb0 as [w0' [_ [[_ ->]|[_ [wN' [_ [[_ ->]|[_ [Bd _]]]]]]]]]; lia. }
    destruct RbN as [[_ ->]|[_ [Bd _]]]; lia.
Qed.

Lemma gather_ranges (wnmin wnmax : Q) :
  forall lbls g,
    gather lbls wnmin wnmax = Ok g ->
    exists ranges,
      Forall2 (fun l p => index_range l wnmin wnmax = Ok p) lbls ranges
      /\ fst g = map fst ranges
      /\ snd g = map (fun p => snd p - fst p) ranges
      /\ map (fun p => fst p + snd p) (combine (fst g) (snd g))
         = map snd ranges.
Proof.
  induction lbls as [|l lbls IH]; intros g H; simpl in H.
  - injection H as <-. exists []. repeat split; constructor.
  - apply bind_ok in H. destruct H as [r [Er H]].
    apply bind_ok in H. destruct H as [rs [Ers H]].
    injection H as <-.
    destruct (IH rs Ers) as [ranges [F [A [B D]]]].
    exists (r :: ranges). split; [constructor; assumption|].
    simpl. rewrite A, B in *. rewrite <- D.
    repeat split. f_equal. lia.
Qed.

Lemma col_inv_ranges (wnmin wnmax : Q) :
  (wnmin <= wnmax)%Q ->
  forall lbls ranges,
    Forall2 (fun l p => index_range l wnmin wnmax = Ok p) lbls ranges ->
    col_inv (located wnmax wnmin) lbls (map fst ranges) (map snd ranges).
Proof.
  intros L lbls ranges F.
  induction F as [|l [i0 iN] lbls ranges H F IH]; simpl; [exact I|].
  split; [|exact IH].
  exact (proj2 (index_range_ordered l wnmin wnmax i0 iN L H)).
Qed.

Lemma col_inv_le (P : lbl -> Z -> Z -> Prop) :
  (forall l lo hi, P l lo hi -> lo <= hi) ->
  forall lbls prev last, col_inv P lbls prev last -> col_le prev last.
Proof.
  intros HP. induction lbls as [|l lbls IH]; intros [|lo prev] [|hi last] H;
    simpl in H; try contradiction.
  - constructor.
  - destruct H as [H1 H2]. constructor; [exact (HP _ _ _ H1)|].
    apply IH. exact H2.
Qed.

(** One source, one step of the loop: the new entry is between the
    previous one and the last one. *)
Lemma bs_step_located (wnmax wnprev val : Q) (l : lbl) (lo hi r : Z) :
  (wnprev <= val)%Q -> (val <= wnmax)%Q ->
  located wnmax wnprev l lo hi ->
  bs l val lo hi = Ok r ->
  lo <= r /\ located wnmax val l r hi.
Proof.
  intros V1 V2 [I1 [I2 [I3 I4]]] H. unfold located.
  destruct (bs_result l val lo hi r H)
    as [w0 [E0 [[Hlow ->]|[Hgt [wN [EN [[Hhigh ->]|[Hlt [Bd _]]]]]]]]].
  - assert (lo = 0)
      by (apply (I2 w0 E0); apply Qle_trans with val; assumption).
    repeat split; try lia; assumption.
  - assert (hi = nlines l - 1).
    { apply (I4 w0 wN E0 EN).
      - apply Qlt_le_trans with val; assumption.
      - apply Qle_trans with val; assumption. }
    repeat split; try lia; try assumption.
    intros w0' E0' Hv. exfalso.
    assert (w0' = w0) by congruence. subst w0'.
    exact (Qlt_not_le _ _ Hgt Hv).
  - repeat split; try lia; try assumption.
    intros w0' E0' Hv. exfalso.
    assert (w0' = w0) by congruence. subst w0'.
    exact (Qlt_not_le _ _ Hgt Hv).
Qed.

Lemma bs_column_step (wnmax wnprev val : Q) :
  (wnprev <= val)%Q -> (val <= wnmax)%Q ->
  forall lbls prev last col,
    col_inv (located wnmax wnprev) lbls prev last ->
    bs_column lbls val prev last = Ok col ->
    col_le prev col /\ col_inv (located wnmax val) lbls col last.
Proof.
  intros V1 V2.
  induction lbls as [|l lbls IH]; intros [|lo prev] [|hi last] col Hinv H;
    simpl in Hinv; try contradiction.
  - simpl in H. injection H as <-. split; [constructor|exact I].
  - destruct Hinv as [H1 H2]. simpl in H.
    apply bind_ok in H. destruct H as [r [Er H]].
    apply bind_ok in H. destruct H as [rest [Erest H]].
    injection H as <-.
    destruct (bs_step_located _ _ _ _ _ _ _ V1 V2 H1 Er) as [A B].
    destruct (IH prev last rest H2 Erest) as [D F].
    split; [constructor; assumption|]. simpl. split; assumption.
Qed.

Lemma balance_columns_chain (limit : nat) (lbls : list lbl) (wnmax target : Q)
    (last : list Z) :
  forall steps wnprev prev mids,
    (wnprev <= wnmax)%Q ->
    col_inv (located wnmax wnprev) lbls prev last ->
    balance_columns limit lbls wnmax target last steps wnprev prev = Ok mids ->
    chain (prev :: mids ++ [last]) /\ List.length mids = steps.
Proof.
  induction steps as [|s IH]; intros wnprev prev mids L Hinv H; simpl in H.
  - injection H as <-. simpl. split; [|reflexivity].
    constructor; [|constructor].
    refine (col_inv_le (located wnmax wnprev) _ lbls prev last Hinv).
    intros l lo hi [X _]. exact X.
  - apply bind_ok in H. destruct H as [wn [Ewn H]].
    apply bind_ok in H. destruct H as [col [Ecol H]].
    apply bind_ok in H. destruct H as [rest [Erest H]].
    injection H as <-.
    destruct (wnbalance_within _ _ _ _ _ _ _ _ L Ewn) as [W1 W2].
    destruct (bs_column_step wnmax wnprev wn W1 W2 lbls prev last col Hinv Ecol)
      as [A B].
    destruct (IH wn col rest W2 B Erest) as [D F].
    split; [|simpl; lia].
    simpl. constructor; assumption.
Qed.

Lemma Qtrunc_comp (p q : Q) : (p == q)%Q -> Qtrunc p = Qtrunc q.
Proof.
  intro H. apply Z.le_antisymm; apply Qtrunc_le; rewrite H; apply Qle_refl.
Qed.

Lemma Qtrunc_inject_Z (z : Z) : Qtrunc (inject_Z z) = z.
Proof.
  unfold Qtrunc, inject_Z. simpl. apply Z.quot_1_r.
Qed.

(** The samples of [np.linspace] over [K] intervals. *)
Lemma linspace_at_eq (a b : Q) (K j : nat) :
  (0 < K)%nat -> (j <= K)%nat ->
  (linspace_at a b (S K) j
   == inject_Z (Z.of_nat j) * ((b - a) / inject_Z (Z.of_nat K)) + a)%Q.
Proof.
  intros HK Hj. unfold linspace_at.
  assert (NZ : ~ (inject_Z (Z.of_nat K) == 0)%Q).
  { unfold Qeq, inject_Z. simpl. lia. }
  destruct (Nat.eqb (S j) (S K)) eqn:E.
  - apply Nat.eqb_eq in E. injection E as ->.
    assert (T : Nat.ltb 1 (S K) = true) by (apply Nat.ltb_lt; lia).
    rewrite T. simpl andb. cbv iota. field. exact NZ.
  - simpl andb. cbv iota.
    replace (Z.of_nat (S K) - 1) with (Z.of_nat K) by lia.
    reflexivity.
Qed.

Lemma linspace_at_mono (a b : Q) (K j : nat) :
  (a <= b)%Q -> (0 < K)%nat -> (S j <= K)%nat ->
  (linspace_at a b (S K) j <= linspace_at a b (S K) (S j))%Q.
Proof.
  intros L HK Hj.
  rewrite (linspace_at_eq a b K j HK ltac:(lia)).
  rewrite (linspace_at_eq a b K (S j) HK Hj).
  assert (P : (0 < inject_Z (Z.of_nat K))%Q).
  { unfold Qlt, inject_Z. simpl. lia. }
  assert (S0 : (0 <= (b - a) / inject_Z (Z.of_nat K))%Q).
  { apply Qle_shift_div_l; [exact P|]. lra. }
  assert (J : (inject_Z (Z.of_nat j) <= inject_Z (Z.of_nat (S j)))%Q).
  { rewrite <- Zle_Qle. lia. }
  apply Qplus_le_l. apply Qmult_le_compat_r; assumption.
Qed.

(** The samples between two integers, truncated: an equal split in integer
    arithmetic. *)
Lemma Qtrunc_linspace_at (i0 iN : Z) (K j : nat) :
  0 <= i0 -> i0 <= iN -> (0 < K)%nat -> (j <= K)%nat ->
  Qtrunc (linspace_at (inject_Z i0) (inject_Z iN) (S K) j)
  = i0 + Z.of_nat j * (iN - i0) / Z.of_nat K.
Proof.
  intros H0 H1 HK Hj.
  rewrite (Qtrunc_comp _ _ (linspace_at_eq _ _ K j HK Hj)).
  assert (E : (inject_Z (Z.of_nat j)
               * ((inject_Z iN - inject_Z i0) / inject_Z (Z.of_nat K))
               + inject_Z i0
               == inject_Z (i0 * Z.of_nat K + Z.of_nat j * (iN - i0))
                  / inject_Z (Z.of_nat K))%Q).
  { assert (NZ : ~ (inject_Z (Z.of_nat K) == 0)%Q)
      by (unfold Qeq, inject_Z; simpl; lia).
    replace (iN - i0) with (iN + - i0) by lia.
    rewrite !inject_Z_plus, !inject_Z_mult, inject_Z_plus, inject_Z_opp.
    field. exact NZ. }
  rewrite (Qtrunc_comp _ _ E).
  rewrite Qtrunc_div by lia.
  rewrite Z.quot_div_nonneg by nia.
  rewrite Z.add_comm, Z.div_add by lia. lia.
Qed.

Lemma single_plan_C (a b : Q) (num n : nat) :
  (n < num)%nat ->
  C (map (fun v => [v]) (map Qtrunc (linspace a b num))) 0 n
  = Qtrunc (linspace_at a b num n).
Proof.
  intro H. unfold C, linspace. rewrite !map_map.
  rewrite (nth_indep _ [] [Qtrunc (linspace_at a b num 0)])
    by (rewrite length_map, length_seq; exact H).
  rewrite (map_nth (fun j => [Qtrunc (linspace_at a b num j)])).
  rewrite seq_nth by exact H. reflexivity.
Qed.

Lemma single_plan_C_other (row : list Z) (k n : nat) :
  C (map (fun v => [v]) row) (S k) n = 0.
Proof.
  unfold C. destruct (Nat.lt_ge_cases n (List.length row)) as [H|H].
  - rewrite (nth_indep _ [] [0]) by (rewrite length_map; exact H).
    rewrite (map_nth (fun v => [v])). simpl. destruct k; reflexivity.
  - rewrite (nth_overflow (map (fun v : Z => [v]) row) [])
      by (rewrite length_map; exact H).
    destruct k; reflexivity.
Qed.

Lemma col_le_nth (a b : list Z) (k : nat) :
  col_le a b -> nth k a 0 <= nth k b 0.
Proof.
  intro H. revert k. induction H as [|x y a b Hxy H IH]; intros [|k]; simpl;
    try lia; auto.
Qed.

Lemma chain_C (p : plan) :
  chain p ->
  forall k n, (S n < List.length p)%nat -> C p k n <= C p k (S n).
Proof.
  induction 1 as [| c | a b rest Hab Hc IH]; intros k n Hn; simpl in Hn;
    try lia.
  destruct n as [|n].
  - unfold C. simpl. apply col_le_nth. exact Hab.
  - apply (IH k n). simpl. lia.
Qed.

(** An ordered sequence of boundaries cuts the rows between its first and
    last boundary into intervals, and each row falls in exactly one. *)
Lemma monotone_cover (f : nat -> Z) :
  forall K,
    (forall n, (n < K)%nat -> f n <= f (S n)) ->
    forall r, f 0%nat <= r < f K ->
      exists n, (n < K)%nat /\ f n <= r < f (S n)
                /\ forall m, (m < K)%nat -> f m <= r < f (S m) -> m = n.
Proof.
  intros K Hmono.
  assert (Gap : forall d a, (a + d <= K)%nat -> f a <= f (a + d)%nat).
  { induction d as [|d IH]; intros a Ha.
    - rewrite Nat.add_0_r. lia.
    - replace (a + S d)%nat with (S (a + d)) by lia.
      pose proof (IH a ltac:(lia)). pose proof (Hmono (a + d)%nat ltac:(lia)).
      lia. }
  assert (Ex : forall K', (K' <= K)%nat -> forall r, f 0%nat <= r < f K' ->
                 exists n, (n < K')%nat /\ f n <= r < f (S n)).
  { induction K' as [|K' IH]; intros HK r Hr; [lia|].
    destruct (Z_lt_le_dec r (f K')) as [Hlt|Hge].
    - destruct (IH ltac:(lia) r ltac:(lia)) as [n [A B]].
      exists n. split; [lia|exact B].
    - exists K'. split; [lia|lia]. }
  intros r Hr. destruct (Ex K (Nat.le_refl K) r Hr) as [n [A B]].
  exists n. split; [exact A|]. split; [exact B|].
  intros m Hm Bm.
  destruct (Nat.lt_trichotomy m n) as [Lt|[Eq|Gt]]; [|exact Eq|].
  - exfalso. pose proof (Gap (n - S m)%nat (S m) ltac:(lia)) as G.
    replace (S m + (n - S m))%nat with n in G by lia. lia.
  - exfalso. pose proof (Gap (m - S n)%nat (S n) ltac:(lia)) as G.
    replace (S n + (m - S n))%nat with m in G by lia. lia.
Qed.

Lemma plan_cover (p : plan) (k : nat) (i0 iN : Z) :
  (forall n, (S n < List.length p)%nat -> C p k n <= C p k (S n)) ->
  C p k 0 = i0 -> C p k (List.length p - 1) = iN ->
  forall r, i0 <= r < iN ->
    exists n, (S n < List.length p)%nat /\ in_chunk p k n r
              /\ forall m, (S m < List.length p)%nat -> in_chunk p k m r ->
                           m = n.
Proof.
  intros Hmono H0 HN r Hr. unfold in_chunk.
  destruct (monotone_cover (C p k) (List.length p - 1)) with (r := r)
    as [n [A [B U]]].
  - intros n Hn. apply Hmono. lia.
  - rewrite H0, HN. exact Hr.
  - exists n. split; [lia|]. split; [exact B|].
    intros m Hm Bm. apply U; [lia|exact Bm].
Qed.

Lemma Forall2_nth_error {A B : Type} (R : A -> B -> Prop) (la : list A)
    (lb : list B) :
  Forall2 R la lb ->
  forall k a, nth_error la k = Some a ->
    exists b, nth_error lb k = Some b /\ R a b.
Proof.
  induction 1 as [|x y la lb Hxy H IH]; intros [|k] a Hk; simpl in Hk;
    try discriminate.
  - injection Hk as <-. exists y. split; [reflexivity|exact Hxy].
  - exact (IH k a Hk).
Qed.

(** The shapes a plan can have, with the ranges of the sources. *)
Lemma chunk_plan_shape (limit : nat) (lbls : list lbl) (wnmin wnmax : Q)
    (chunksize : Z) (p : plan) :
  chunk_plan limit lbls wnmin wnmax chunksize = Ok p ->
  exists ranges nchunks,
    Forall2 (fun l r => index_range l wnmin wnmax = Ok r) lbls ranges
    /\ number_of_chunks (zsum (map (fun r => snd r - fst r) ranges)) chunksize
       = Ok nchunks
    /\ 0 <= nchunks
    /\ ((exists l r, lbls = [l] /\ ranges = [r]
           /\ p = map (fun v => [v])
                    (map Qtrunc
                       (linspace
                          (inject_Z (if nchunks =? 0 then snd r else fst r))
                          (inject_Z (snd r)) (Z.to_nat (nchunks + 1)))))
        \/ (nchunks = 0 /\ p = [map snd ranges])
        \/ (0 < nchunks /\ exists mids,
              balance_columns limit lbls wnmax
                (inject_Z (zsum (map (fun r => snd r - fst r) ranges))
                 / inject_Z nchunks)
                (map snd ranges) (Z.to_nat (nchunks - 1)) wnmin
                (map fst ranges) = Ok mids
              /\ p = map fst ranges :: mids ++ [map snd ranges])).
Proof.
  intro H. unfold chunk_plan in H.
  apply bind_ok in H. destruct H as [g [Eg H]].
  apply bind_ok in H. destruct H as [nchunks [En H]].
  destruct (gather_ranges wnmin wnmax lbls g Eg) as [ranges [F [A [B D]]]].
  rewrite D in H. rewrite A, B in H. rewrite B in En.
  exists ranges, nchunks. split; [exact F|]. split; [exact En|].
  destruct (nchunks <? -1) eqn:E1; [discriminate|].
  destruct (nchunks =? -1) eqn:E2; [discriminate|].
  apply Z.ltb_ge in E1. apply Z.eqb_neq in E2.
  split; [lia|].
  destruct (List.length lbls =? 1)%nat eqn:E3.
  - left. apply Nat.eqb_eq in E3.
    destruct lbls as [|l [|l' lbls]]; try discriminate.
    inversion F as [|? r ? rs Hr Frest]; subst.
    inversion Frest; subst.
    exists l, r. split; [reflexivity|]. split; [reflexivity|].
    injection H as <-. simpl. destruct (nchunks =? 0); reflexivity.
  - right. destruct (nchunks =? 0) eqn:E4.
    + left. apply Z.eqb_eq in E4. injection H as <-. auto.
    + right. apply Z.eqb_neq in E4. split; [lia|].
      apply bind_ok in H. destruct H as [mids [Em H]].
      injection H as <-. exists mids. auto.
Qed.



(** ** Number of chunks and the split of a single source *)

Lemma zsum_from (l : list Z) (a : Z) : fold_left Z.add l a = a + zsum l.
Proof.
  unfold zsum. revert a. induction l as [|x l IH]; intro a; simpl; [lia|].
  rewrite IH, (IH x). lia.
Qed.

Lemma zsum_ranges_nonneg (wnmin wnmax : Q) :
  (wnmin <= wnmax)%Q ->
  forall lbls ranges,
    Forall2 (fun l r => index_range l wnmin wnmax = Ok r) lbls ranges ->
    0 <= zsum (map (fun r => snd r - fst r) ranges).
Proof.
  intros L lbls ranges F.
  induction F as [|l [i0 iN] lbls ranges H F IH]; [unfold zsum; simpl; lia|].
  unfold zsum. simpl. rewrite zsum_from.
  destruct (index_range_ordered l wnmin wnmax i0 iN L H) as [_ [P _]].
  simpl. lia.
Qed.

Lemma Forall2_functional {A B : Type} (f : A -> result B) (la : list A) :
  forall lb lb',
    Forall2 (fun a b => f a = Ok b) la lb ->
    Forall2 (fun a b => f a = Ok b) la lb' ->
    lb = lb'.
Proof.
  induction la as [|a la IH]; intros lb lb' F F'; inversion F; inversion F';
    subst; [reflexivity|].
  f_equal; [congruence|]. apply IH; assumption.
Qed.

Lemma number_of_chunks_floor (total chunksize : Z) :
  0 <= total -> 0 < chunksize ->
  number_of_chunks total chunksize = Ok (total / chunksize + 1).
Proof.
  intros Ht Hc. unfold number_of_chunks.
  destruct (chunksize =? 0) eqn:E; [apply Z.eqb_eq in E; lia|].
  rewrite Qtrunc_div by lia. rewrite Z.quot_div_nonneg by lia. reflexivity.
Qed.

(** Consecutive boundaries of an equal split differ by the quotient of the
    range by the number of parts, or by one more. *)
Lemma equal_split_step (N K n : Z) :
  0 <= N -> 0 < K -> 0 <= n ->
  N / K <= (n + 1) * N / K - n * N / K <= N / K + 1.
Proof.
  intros HN HK Hn.
  replace ((n + 1) * N) with (n * N + N) by lia.
  pose proof (Z.div_mod N K ltac:(lia)) as EN.
  pose proof (Z.mod_pos_bound N K HK) as BN.
  pose proof (Z.div_mod (n * N) K ltac:(lia)) as Ex.
  pose proof (Z.mod_pos_bound (n * N) K HK) as Bx.
  pose proof (Z.div_mod (n * N + N) K ltac:(lia)) as Es.
  pose proof (Z.mod_pos_bound (n * N + N) K HK) as Bs.
  set (q := N / K) in *. set (a := n * N / K) in *.
  set (s := (n * N + N) / K) in *.
  assert (D : K * (s - a - q) = (n * N) mod K + N mod K - (n * N + N) mod K)
    by lia.
  assert (-1 < s - a - q < 2) by nia.
  lia.
Qed.



(** ** Classifier *)

Lemma sqrt_PI_gt_1 : (1 < sqrt PI)%R.
Proof.
  rewrite <- sqrt_1 at 1. apply sqrt_lt_1_alt.
  pose proof PI2_1. split; lra.
Qed.

Lemma mask_select_map {A B : Type} (f : A -> B) :
  forall mask a, mask_select mask (map f a) = map f (mask_select mask a).
Proof.
  induction mask as [|b mask IH]; intros [|x a]; simpl; try reflexivity.
  destruct b; simpl; rewrite IH; reflexivity.
Qed.

(** Selecting by a mask is selecting the positions where the mask holds. *)
Lemma mask_select_positions {A : Type} (d : A) :
  forall mask a off,
    List.length mask = List.length a ->
    mask_select mask a
    = map (fun i => nth (i - off) a d)
          (mask_select mask (seq off (List.length a))).
Proof.
  induction mask as [|b mask IH]; intros [|x a] off Hlen; simpl in Hlen;
    try discriminate; [reflexivity|].
  injection Hlen as Hlen. simpl.
  assert (T : mask_select mask a
              = map (fun i => nth (i - off) (x :: a) d)
                    (mask_select mask (seq (S off) (List.length a)))).
  { rewrite (IH a (S off) Hlen). apply map_ext_in.
    intros i Hi.
    assert (Hin : In i (seq (S off) (List.length a))).
    { clear - Hi. revert Hi. generalize (seq (S off) (List.length a)).
      induction mask as [|b mask IHm]; intros [|y l] H; simpl in H;
        try contradiction.
      destruct b; simpl in H.
      - destruct H as [->|H]; [left; reflexivity|right; exact (IHm l H)].
      - right. exact (IHm l H). }
    apply in_seq in Hin.
    replace (i - off)%nat with (S (i - S off)) by lia. reflexivity. }
  destruct b; simpl; rewrite T; [|reflexivity].
  rewrite Nat.sub_diag. reflexivity.
Qed.

(** Each position is selected once where the mask holds and never where
    it does not. *)
Lemma count_occ_positions :
  forall mask off n m,
    List.length mask = n ->
    (off <= m < off + n)%nat ->
    count_occ Nat.eq_dec (mask_select mask (seq off n)) m
    = if nth (m - off) mask false then 1%nat else 0%nat.
Proof.
  assert (Below : forall mask off n m, (m < off)%nat ->
            count_occ Nat.eq_dec (mask_select mask (seq off n)) m = 0%nat).
  { induction mask as [|b mask IH]; intros off [|n] m Hm; simpl;
      try reflexivity.
    destruct b; simpl.
    - destruct (Nat.eq_dec off m); [lia|]. apply IH. lia.
    - apply IH. lia. }
  induction mask as [|b mask IH]; intros off n m Hlen Hm; simpl in Hlen;
    subst n; [simpl in Hm; lia|].
  simpl seq. simpl mask_select.
  destruct (Nat.eq_dec off m) as [->|Hne].
  - rewrite Nat.sub_diag. simpl nth.
    destruct b; simpl.
    + destruct (Nat.eq_dec m m); [|congruence].
      rewrite Below by lia. reflexivity.
    + apply Below. lia.
  - replace (m - off)%nat with (S (m - S off)) by lia. simpl nth.
    destruct b; simpl.
    + destruct (Nat.eq_dec off m); [congruence|].
      apply IH; [reflexivity|simpl in Hm; lia].
    + apply IH; [reflexivity|simpl in Hm; lia].
Qed.

Lemma ior_length (a b : list bool) :
  List.length a = List.length b -> List.length (ior a b) = List.length a.
Proof.
  revert b. induction a as [|x a IH]; intros [|y b] H; simpl in *;
    try discriminate; [reflexivity|].
  f_equal. apply IH. lia.
Qed.

Lemma ior_nth (a b : list bool) (m : nat) :
  List.length a = List.length b ->
  nth m (ior a b) false = nth m a false || nth m b false.
Proof.
  revert b m. induction a as [|x a IH]; intros [|y b] m H; simpl in *;
    try discriminate.
  - destruct m; reflexivity.
  - destruct m; [reflexivity|]. apply IH. lia.
Qed.

Section ClassifierFacts.

Local Open Scope R_scope.

Variables C2 C3 kB amu c_light : R.
Variables iratio imass : nat -> R.
Variable z : nat -> R -> R.
Variable isotopes : nat -> Z.
Variable argsort : list R -> list nat.
Variable flag_cell :
  list bool -> list R -> list R -> list nat -> list R -> R -> nat -> bool.
Variable u_continuum : list R -> list R -> list R -> list R -> list R.

Local Abbreviation S_ := (strength C2 iratio z).
Local Abbreviation alpha_ := (doppler kB amu c_light imass).
Local Abbreviation D_low := (metric_low C2 kB amu c_light iratio imass z).
Local Abbreviation D_high := (metric_high C2 kB amu c_light iratio imass z).
Local Abbreviation f_low :=
  (flag_low C2 kB amu c_light iratio imass z argsort flag_cell).
Local Abbreviation f_high :=
  (flag_high C2 kB amu c_light iratio imass z argsort flag_cell).
Local Abbreviation f_final :=
  (final_flag C2 kB amu c_light iratio imass z argsort flag_cell).
Local Abbreviation S_cont := (cont_strength C2 C3 iratio z).
Local Abbreviation run_chunk :=
  (process_chunk C2 C3 kB amu c_light iratio imass z isotopes argsort
                 flag_cell u_continuum).

Lemma array_div_nth (a b : list R) (j : nat) (x y : R) :
  nth_error a j = Some x -> nth_error b j = Some y ->
  nth_error (array_div a b) j = Some (x / y).
Proof.
  revert b j. induction a as [|x' a IH]; intros [|y' b] [|j] Ha Hb;
    simpl in *; try discriminate.
  - injection Ha as ->. injection Hb as ->. reflexivity.
  - apply IH; assumption.
Qed.


Lemma u_flag_length (flag : list bool) (wn s : list R) (isort : list nat)
    (alphad : list R) (sthresh : R) :
  List.length (u_flag flag_cell flag wn s isort alphad sthresh)
  = List.length flag.
Proof.
  unfold u_flag. rewrite length_map, length_seq. reflexivity.
Qed.

Lemma store_strong_app (chunk : list transition) :
  forall indices stream,
    store_strong isotopes chunk indices stream
    = stream ++ map (pack isotopes chunk) indices.
Proof.
  induction indices as [|m rest IH]; intro stream; simpl.
  - rewrite app_nil_r. reflexivity.
  - rewrite IH, <- app_assoc. reflexivity.
Qed.

Lemma store_weak_nth (flag : list bool) (chunk : list transition)
    (wnspec : list R) :
  forall temperature cont t T col,
    nth_error temperature t = Some T ->
    nth_error cont t = Some col ->
    nth_error (store_weak C2 C3 iratio z u_continuum flag chunk wnspec
                          temperature cont) t
    = Some (u_continuum
              (mask_select (map negb flag) (map (S_cont T) chunk))
              (mask_select (map negb flag) (map t_wn chunk))
              col wnspec).
Proof.
  induction temperature as [|T' temps IH]; intros [|c cols] [|t] T col HT Hc;
    simpl in *; try discriminate.
  - injection HT as ->. injection Hc as ->. reflexivity.
  - apply IH; assumption.
Qed.

Lemma store_weak_length (flag : list bool) (chunk : list transition)
    (wnspec : list R) :
  forall temperature cont,
    List.length (store_weak C2 C3 iratio z u_continuum flag chunk wnspec
                            temperature cont)
    = List.length cont.
Proof.
  induction temperature as [|T temps IH]; intros [|c cols]; simpl;
    try reflexivity.
  rewrite IH. reflexivity.
Qed.


End ClassifierFacts.



(** ** Runs on concrete inputs *)

Example parse_file_exomol :
  parse_file "1H2-16O__BT2__00000-00250.trans.bz2" "exomol"
  = Ok (mk_info "__00000-00250" "H2O" (Some "116"%string)).
Proof. reflexivity. Qed.

Example parse_file_hitran :
  parse_file "02_00500-00625_HITEMP2010.par" "hitran"
  = Ok (mk_info "00500" "CO2" None).
Proof. reflexivity. Qed.

Example parse_file_unknown_molecule :
  parse_file "09_00500-00625_HITEMP2010.par" "hitran" = Raise KeyError.
Proof. reflexivity. Qed.

Example bs_nearest_row :
  map (fun v => bs (source (ramp 100 7)) v 0 6)
      [99; 100; 207 # 2; 209 # 2; 106; 300]%Q
  = [Ok 0; Ok 0; Ok 3; Ok 4; Ok 6; Ok 6].
Proof. reflexivity. Qed.

Example chunk_plan_single :
  chunk_plan 0 [source (ramp 1 10)] 0 20 3 = Ok [[0]; [2]; [4]; [6]; [9]].
Proof. reflexivity. Qed.

Example chunk_plan_two_sources :
  chunk_plan 60 [source (ramp 1 100); source (ramp 51 100)] 0 200 70
  = Ok [[0; 0]; [58; 8]; [91; 41]; [99; 99]].
Proof. vm_compute. reflexivity. Qed.

(** Two files with the same rows: the count moves in steps of two and the
    target of 99 transitions is never met. *)
Example chunk_plan_tied_sources :
  chunk_plan 60 [source (ramp 1 100); source (ramp 1 100)] 0 200 150
  = Raise RecursionError.
Proof. vm_compute. reflexivity. Qed.

(** An inverted window is not rejected, and its plan is not ordered. *)
Example chunk_plan_inverted_window :
  chunk_plan 0 [source [1; 5; 9]%Q] 8 1 100 = Ok [[2]; [1]].
Proof. reflexivity. Qed.

(** * Further properties of the code *)

(** ** The order on strings *)

Lemma ltb_compare (a b : string) :
  String.ltb a b = true <-> String.compare a b = Lt.
Proof.
  unfold String.ltb. destruct (String.compare a b); split; congruence.
Qed.

Lemma str_lt_trans (a b c : string) : str_lt a b -> str_lt b c -> str_lt a c.
Proof.
  unfold str_lt. rewrite !ltb_compare. intros H1 H2.
  apply OrderedTypeEx.String_as_OT.cmp_lt in H1.
  apply OrderedTypeEx.String_as_OT.cmp_lt in H2.
  apply OrderedTypeEx.String_as_OT.cmp_lt.
  exact (OrderedTypeEx.String_as_OT.lt_trans _ _ _ H1 H2).
Qed.

Lemma str_lt_irrefl (a : string) : ~ str_lt a a.
Proof.
  unfold str_lt. rewrite ltb_compare. intro H.
  assert (E : String.compare a a = Eq)
    by (apply OrderedTypeEx.String_as_OT.cmp_eq; reflexivity).
  congruence.
Qed.

Lemma str_trichotomy (a b : string) : str_lt a b \/ a = b \/ str_lt b a.
Proof.
  unfold str_lt. rewrite !ltb_compare.
  destruct (String.compare a b) eqn:E.
  - right. left. apply String.compare_eq_iff. exact E.
  - left. reflexivity.
  - right. right. rewrite String.compare_antisym, E. reflexivity.
Qed.

Lemma ltb_false (a b : string) :
  String.ltb a b = false -> a = b \/ str_lt b a.
Proof.
  intro H. destruct (str_trichotomy a b) as [L|[E|G]]; auto.
  unfold str_lt in L. congruence.
Qed.

(** ** Wavenumber sets *)

Lemma least_spec (rest : list string) :
  forall x,
    In (least x rest) (x :: rest)
    /\ forall y, In y (x :: rest) -> least x rest = y \/ str_lt (least x rest) y.
Proof.
  induction rest as [|z rest IH]; intro x; simpl.
  - split; [left; reflexivity|]. intros y [<-|[]]. left. reflexivity.
  - destruct (IH (if String.ltb z x then z else x)) as [A B].
    split.
    + destruct A as [A|A]; [|right; right; exact A].
      destruct (String.ltb z x); [right; left|left]; exact A.
    + intros y Hy.
      assert (M : forall w, (if String.ltb z x then z else x) = w
                            \/ str_lt (if String.ltb z x then z else x) w ->
                  least (if String.ltb z x then z else x) rest = w
                  \/ str_lt (least (if String.ltb z x then z else x) rest) w).
      { intros w Hw.
        destruct (B _ (or_introl eq_refl)) as [E|L].
        - rewrite E. exact Hw.
        - destruct Hw as [<-|Hw]; [right; exact L|].
          right. exact (str_lt_trans _ _ _ L Hw). }
      destruct Hy as [<-|[<-|Hy]].
      * apply M. destruct (String.ltb z x) eqn:E; [right; exact E|left; reflexivity].
      * apply M. destruct (String.ltb z x) eqn:E; [left; reflexivity|].
        destruct (ltb_false _ _ E) as [->|L]; [left; reflexivity|right; exact L].
      * apply B. right. exact Hy.
Qed.

Lemma list_remove_spec (x : string) :
  forall s, In x s ->
    exists s', list_remove x s = Ok s'
      /\ S (List.length s') = List.length s
      /\ forall y, count_occ string_dec s y
                   = (count_occ string_dec s' y
                      + if string_dec x y then 1 else 0)%nat.
Proof.
  induction s as [|z s IH]; intro H; [contradiction|]. simpl.
  destruct (String.eqb z x) eqn:E.
  - apply String.eqb_eq in E. subst z.
    exists s. split; [reflexivity|]. split; [reflexivity|].
    intro y. destruct (string_dec x y); lia.
  - apply String.eqb_neq in E.
    destruct H as [H|H]; [congruence|].
    destruct (IH H) as [s' [R [L Cn]]].
    rewrite R. simpl. exists (z :: s'). split; [reflexivity|].
    split; [simpl; lia|].
    intro y. simpl. specialize (Cn y).
    destruct (string_dec z y); destruct (string_dec x y); try lia.
Qed.

(** The inner loop: the files that carry [suffix], in file order, as long
    as [s] still holds one copy of [suffix] for each of them. *)
Lemma collect_spec (suffix : string) :
  forall suff i idx s,
    (count_occ string_dec suff suffix <= count_occ string_dec s suffix)%nat ->
    exists s',
      collect suff i suffix idx s
      = Ok ((idx ++ positions suff i suffix)%list, s')
      /\ (List.length s' + count_occ string_dec suff suffix)%nat
         = List.length s
      /\ forall y, count_occ string_dec s y
                   = (count_occ string_dec s' y
                      + if string_dec suffix y
                        then count_occ string_dec suff suffix else 0)%nat.
Proof.
  induction suff as [|x suff IH]; intros i idx s H; simpl.
  - exists s. rewrite app_nil_r. split; [reflexivity|]. split; [lia|].
    intro y. destruct (string_dec suffix y); lia.
  - simpl in H. destruct (String.eqb x suffix) eqn:E.
    + apply String.eqb_eq in E. subst x.
      destruct (string_dec suffix suffix) as [_|N]; [|congruence].
      assert (Hin : In suffix s).
      { apply (count_occ_In string_dec). lia. }
      destruct (list_remove_spec suffix s Hin) as [s1 [R [L Cn]]].
      rewrite R. cbn [bind].
      pose proof (Cn suffix) as Cs.
      destruct (string_dec suffix suffix) as [_|N]; [|congruence].
      destruct (IH (S i) (idx ++ [i])%list s1 ltac:(lia)) as [s' [Q1 [L' Cn']]].
      exists s'. rewrite Q1, <- app_assoc. split; [reflexivity|].
      split; [lia|].
      intro y. specialize (Cn y). specialize (Cn' y).
      destruct (string_dec suffix y); lia.
    + apply String.eqb_neq in E.
      destruct (string_dec x suffix) as [N|_]; [congruence|].
      exact (IH (S i) idx s H).
Qed.

Lemma StronglySorted_snoc (D : list string) (m : string) :
  StronglySorted str_lt D -> (forall d, In d D -> str_lt d m) ->
  StronglySorted str_lt (D ++ [m]).
Proof.
  induction 1 as [|d D HS IH HF]; intro Hm; simpl.
  - constructor; constructor.
  - constructor.
    + apply IH. intros e He. apply Hm. right. exact He.
    + apply Forall_app. split; [exact HF|].
      constructor; [|constructor]. apply Hm. left. reflexivity.
Qed.

(** The loop ends within one round per file, never fails, and leaves one
    set for each distinct suffix, the suffixes in increasing order. *)
Lemma wnset_loop_spec (suff : list string) :
  forall rounds s done,
    (List.length s <= rounds)%nat ->
    (forall y, In y done -> count_occ string_dec s y = 0%nat) ->
    (forall y, ~ In y done ->
               count_occ string_dec s y = count_occ string_dec suff y) ->
    (forall d y, In d done -> In y s -> str_lt d y) ->
    StronglySorted str_lt done ->
    (forall d, In d done -> In d suff) ->
    exists D,
      wnset_loop rounds suff s (map (positions suff 0) done)
      = Some (Ok (map (positions suff 0) D))
      /\ StronglySorted str_lt D
      /\ forall y, In y D <-> In y suff.
Proof.
  induction rounds as [|r IH]; intros s done Hlen Hz Hc Hlt Hs Hin.
  - destruct s; [|simpl in Hlen; lia].
    exists done. split; [reflexivity|]. split; [exact Hs|].
    intro y. split; [apply Hin|]. intro Hy.
    destruct (in_dec string_dec y done) as [I|N]; [exact I|].
    exfalso. pose proof (Hc y N) as E. simpl in E.
    apply (count_occ_In string_dec) in Hy. lia.
  - destruct s as [|x rest].
    { exists done. split; [reflexivity|]. split; [exact Hs|].
      intro y. split; [apply Hin|]. intro Hy.
      destruct (in_dec string_dec y done) as [I|N]; [exact I|].
      exfalso. pose proof (Hc y N) as E. simpl in E.
      apply (count_occ_In string_dec) in Hy. lia. }
    cbn [wnset_loop].
    destruct (least_spec rest x) as [Min Mle].
    set (m := least x rest) in *.
    assert (Nd : ~ In m done).
    { intro I. pose proof (Hz m I).
      apply (count_occ_In string_dec) in Min. lia. }
    destruct (collect_spec m suff 0 [] (x :: rest)) as [s' [Q1 [L Cn]]].
    { rewrite (Hc m Nd). lia. }
    rewrite Q1. simpl app.
    assert (Pos : (1 <= count_occ string_dec suff m)%nat).
    { rewrite <- (Hc m Nd). apply (count_occ_In string_dec) in Min. lia. }
    assert (Sub : forall y, In y s' -> In y (x :: rest) /\ y <> m).
    { intros y Hy. apply (count_occ_In string_dec) in Hy.
      pose proof (Cn y) as Cy. split.
      - apply (count_occ_In string_dec). lia.
      - intros ->. destruct (string_dec m m) as [_|N]; [|congruence].
        rewrite (Hc m Nd) in Cy. lia. }
    replace (map (positions suff 0) done ++ [positions suff 0 m])%list
      with (map (positions suff 0) (done ++ [m]))
      by (rewrite map_app; reflexivity).
    apply IH.
    + simpl in L. simpl in Hlen. lia.
    + intros y Hy. apply in_app_or in Hy. pose proof (Cn y) as Cy.
      destruct Hy as [Hy|[<-|[]]].
      * rewrite (Hz y Hy) in Cy. lia.
      * destruct (string_dec m m) as [_|N]; [|congruence].
        rewrite (Hc m Nd) in Cy. lia.
    + intros y Hy. pose proof (Cn y) as Cy.
      assert (Ny : ~ In y done) by (intro I; apply Hy, in_or_app; left; exact I).
      destruct (string_dec m y) as [->|_].
      * exfalso. apply Hy, in_or_app. right. left. reflexivity.
      * rewrite <- (Hc y Ny). lia.
    + intros d y Hd Hy. destruct (Sub y Hy) as [Sy Ne].
      apply in_app_or in Hd. destruct Hd as [Hd|[<-|[]]].
      * exact (Hlt d y Hd Sy).
      * destruct (Mle y Sy) as [E|Lt]; [congruence|exact Lt].
    + apply StronglySorted_snoc; [exact Hs|].
      intros d Hd. exact (Hlt d m Hd Min).
    + intros d Hd. apply in_app_or in Hd. destruct Hd as [Hd|[<-|[]]].
      * exact (Hin d Hd).
      * apply (count_occ_In string_dec). lia.
Qed.

Lemma wnsets_sorted_positions (suff : list string) :
  exists D,
    wnsets suff = Some (Ok (map (positions suff 0) D))
    /\ StronglySorted str_lt D
    /\ forall y, In y D <-> In y suff.
Proof.
  unfold wnsets.
  apply (wnset_loop_spec suff (List.length suff) suff []).
  - lia.
  - intros y [].
  - reflexivity.
  - intros d y [].
  - constructor.
  - intros d [].
Qed.

Lemma positions_In (sfx : string) :
  forall suff k i,
    In i (positions suff k sfx)
    <-> (k <= i)%nat /\ nth_error suff (i - k) = Some sfx.
Proof.
  induction suff as [|x suff IH]; intros k i; simpl.
  - split; [intros []|]. intros [_ H]. destruct (i - k)%nat; discriminate.
  - destruct (String.eqb x sfx) eqn:E.
    + apply String.eqb_eq in E. subst x. simpl. rewrite IH. split.
      * intros [<-|[H1 H2]].
        -- split; [lia|]. rewrite Nat.sub_diag. reflexivity.
        -- split; [lia|]. replace (i - k)%nat with (S (i - S k)) by lia.
           exact H2.
      * intros [H1 H2]. destruct (Nat.eq_dec k i) as [->|N]; [left; reflexivity|].
        right. split; [lia|].
        replace (i - k)%nat with (S (i - S k)) in H2 by lia. exact H2.
    + apply String.eqb_neq in E. rewrite IH. split.
      * intros [H1 H2]. split; [lia|].
        replace (i - k)%nat with (S (i - S k)) by lia. exact H2.
      * intros [H1 H2]. destruct (Nat.eq_dec k i) as [->|N].
        -- rewrite Nat.sub_diag in H2. simpl in H2. congruence.
        -- split; [lia|].
           replace (i - k)%nat with (S (i - S k)) in H2 by lia. exact H2.
Qed.

Lemma positions_NoDup (sfx : string) :
  forall suff k, NoDup (positions suff k sfx).
Proof.
  induction suff as [|x suff IH]; intro k; simpl; [constructor|].
  destruct (String.eqb x sfx); [|apply IH].
  constructor; [|apply IH].
  rewrite positions_In. lia.
Qed.

Lemma positions_count (suff : list string) (sfx : string) (i : nat) :
  count_occ Nat.eq_dec (positions suff 0 sfx) i
  = match nth_error suff i with
    | Some y => if string_dec sfx y then 1%nat else 0%nat
    | None => 0%nat
    end.
Proof.
  pose proof (positions_In sfx suff 0 i) as HI. rewrite Nat.sub_0_r in HI.
  pose proof (positions_NoDup sfx suff 0) as ND.
  destruct (nth_error suff i) as [y|] eqn:E.
  - destruct (string_dec sfx y) as [->|N].
    + apply NoDup_count_occ'; [exact ND|]. apply HI. split; [lia|reflexivity].
    + apply count_occ_not_In. rewrite HI. intros [_ H]. congruence.
  - apply count_occ_not_In. rewrite HI. intros [_ H]. discriminate.
Qed.

Lemma StronglySorted_NoDup (D : list string) :
  StronglySorted str_lt D -> NoDup D.
Proof.
  induction 1 as [|d D HS IH HF]; constructor; [|exact IH].
  intro I. rewrite Forall_forall in HF.
  exact (str_lt_irrefl d (HF d I)).
Qed.

Lemma StronglySorted_nth (D : list string) :
  StronglySorted str_lt D ->
  forall a b da db,
    (a < b)%nat -> nth_error D a = Some da -> nth_error D b = Some db ->
    str_lt da db.
Proof.
  induction 1 as [|d D HS IH HF]; intros a b da db Hab Ha Hb.
  - destruct a; discriminate.
  - destruct b as [|b]; [lia|]. simpl in Hb.
    destruct a as [|a].
    + simpl in Ha. injection Ha as <-.
      rewrite Forall_forall in HF. apply HF.
      exact (nth_error_In _ _ Hb).
    + simpl in Ha. apply (IH a b); (lia || assumption).
Qed.

Lemma nth_error_map_inv {A B : Type} (f : A -> B) (l : list A) (n : nat)
    (y : B) :
  nth_error (map f l) n = Some y ->
  exists x, nth_error l n = Some x /\ y = f x.
Proof.
  revert n. induction l as [|a l IH]; intros [|n] H; simpl in H;
    try discriminate.
  - injection H as <-. exists a. split; reflexivity.
  - exact (IH n H).
Qed.

(** X1. Grouping the files by suffix always ends, without an error.  Every
    set is non-empty and holds exactly the files of one suffix, and the
    suffixes of the sets increase strictly from one set to the next. *)
Theorem wnsets_groups (suff : list string) :
  exists wnset,
    wnsets suff = Some (Ok wnset)
    /\ (forall g, In g wnset ->
          g <> []
          /\ exists sfx, forall i, In i g <-> nth_error suff i = Some sfx)
    /\ (forall a b ga gb i j si sj,
          (a < b)%nat ->
          nth_error wnset a = Some ga -> nth_error wnset b = Some gb ->
          In i ga -> In j gb ->
          nth_error suff i = Some si -> nth_error suff j = Some sj ->
          str_lt si sj).
Proof.
  destruct (wnsets_sorted_positions suff) as [D [E [HS HD]]].
  exists (map (positions suff 0) D). split; [exact E|]. split.
  - intros g Hg. apply in_map_iff in Hg. destruct Hg as [sfx [<- Hs]].
    assert (Iff : forall i, In i (positions suff 0 sfx)
                            <-> nth_error suff i = Some sfx).
    { intro i. rewrite positions_In, Nat.sub_0_r. split; [tauto|].
      intro H. split; [lia|exact H]. }
    split; [|exists sfx; exact Iff].
    apply HD in Hs. apply In_nth_error in Hs. destruct Hs as [i Hi].
    apply Iff in Hi. intro Z. rewrite Z in Hi. exact Hi.
  - intros a b ga gb i j si sj Hab Ha Hb Hi Hj Hsi Hsj.
    apply nth_error_map_inv in Ha. destruct Ha as [da [Ha Ga]].
    apply nth_error_map_inv in Hb. destruct Hb as [db [Hb Gb]].
    subst ga gb.
    apply positions_In in Hi. apply positions_In in Hj.
    rewrite Nat.sub_0_r in Hi, Hj.
    assert (si = da) by (destruct Hi; congruence).
    assert (sj = db) by (destruct Hj; congruence).
    subst si sj.
    exact (StronglySorted_nth D HS a b da db Hab Ha Hb).
Qed.

(** X2. The wavenumber sets split the files: every file index below the
    number of files occurs in the sets exactly once, and no other index
    occurs. *)
Theorem wnsets_partition (suff : list string) :
  exists wnset,
    wnsets suff = Some (Ok wnset)
    /\ forall i,
         count_occ Nat.eq_dec (List.concat wnset) i
         = if (i <? List.length suff)%nat then 1%nat else 0%nat.
Proof.
  destruct (wnsets_sorted_positions suff) as [D [E [HS HD]]].
  exists (map (positions suff 0) D). split; [exact E|].
  intro i.
  assert (Sum : forall D',
            count_occ Nat.eq_dec (List.concat (map (positions suff 0) D')) i
            = match nth_error suff i with
              | Some y => count_occ string_dec D' y
              | None => 0%nat
              end).
  { induction D' as [|d D' IH]; simpl.
    - destruct (nth_error suff i); reflexivity.
    - rewrite count_occ_app, IH, positions_count.
      destruct (nth_error suff i) as [y|]; [|reflexivity].
      destruct (string_dec d y); lia. }
  rewrite Sum.
  destruct (nth_error suff i) as [y|] eqn:Ey.
  - assert (Hi : (i < List.length suff)%nat)
      by (apply nth_error_Some; congruence).
    apply Nat.ltb_lt in Hi. rewrite Hi.
    apply NoDup_count_occ'; [apply StronglySorted_NoDup; exact HS|].
    apply HD. exact (nth_error_In _ _ Ey).
  - apply nth_error_None in Ey.
    assert (Hi : (i <? List.length suff)%nat = false)
      by (apply Nat.ltb_ge; exact Ey).
    rewrite Hi. reflexivity.
Qed.

(** ** Isotope indices *)

Lemma list_index_ok (x : string) :
  forall l n,
    list_index x l = Ok n ->
    nth_error l n = Some x
    /\ forall k, (k < n)%nat -> nth_error l k <> Some x.
Proof.
  induction l as [|y l IH]; intros n H; simpl in H; [discriminate|].
  destruct (String.eqb y x) eqn:E.
  - apply String.eqb_eq in E. subst y. injection H as <-.
    split; [reflexivity|]. intros k Hk. lia.
  - apply String.eqb_neq in E.
    apply bind_ok in H. destruct H as [m [Hm H]]. injection H as <-.
    destruct (IH m Hm) as [A B]. split; [exact A|].
    intros [|k] Hk; simpl; [congruence|]. apply B. lia.
Qed.

Lemma list_index_In (x : string) :
  forall l, In x l -> exists n, list_index x l = Ok n.
Proof.
  induction l as [|y l IH]; intro H; [contradiction|]. simpl.
  destruct (String.eqb y x) eqn:E; [eauto|].
  apply String.eqb_neq in E. destruct H as [H|H]; [congruence|].
  destruct (IH H) as [n Hn]. rewrite Hn. simpl. eauto.
Qed.

Lemma list_index_not_In (x : string) :
  forall l, ~ In x l -> list_index x l = Raise ValueError.
Proof.
  induction l as [|y l IH]; intro H; [reflexivity|]. simpl.
  destruct (String.eqb y x) eqn:E.
  - apply String.eqb_eq in E. exfalso. apply H. left. exact E.
  - rewrite IH; [reflexivity|]. intro I. apply H. right. exact I.
Qed.

Lemma insert_sorted_In (x y : string) :
  forall l, In y (insert_sorted x l) <-> y = x \/ In y l.
Proof.
  induction l as [|z l IH]; simpl.
  - split; [intros [<-|[]]; auto|intros [->|[]]; auto].
  - destruct (String.eqb x z) eqn:E.
    + apply String.eqb_eq in E. subst z. simpl. split; [auto|].
      intros [->|H]; auto.
    + destruct (String.ltb x z); simpl; [split; intros [H|H]; auto|].
      rewrite IH. split; intros [H|H]; auto.
      * destruct H; auto.
      * destruct H; auto.
Qed.

Lemma np_unique_In (y : string) :
  forall l, In y (np_unique l) <-> In y l.
Proof.
  induction l as [|x l IH]; simpl; [tauto|].
  rewrite insert_sorted_In, IH. split; intros [H|H]; auto.
Qed.

Lemma iso_indices_spec (isotopes : list string) :
  forall isot,
    (forall name, In name isot -> In name isotopes) ->
    exists iso,
      iso_indices isotopes isot = Ok iso
      /\ List.length iso = List.length isot
      /\ forall i name, nth_error isot i = Some name ->
           exists j, nth_error iso i = Some j
                     /\ nth_error isotopes j = Some name.
Proof.
  induction isot as [|x isot IH]; intro H; simpl.
  - exists []. split; [reflexivity|]. split; [reflexivity|].
    intros [|i] name Hn; discriminate.
  - destruct (list_index_In x isotopes (H x (or_introl eq_refl))) as [j Hj].
    destruct IH as [iso [E [L N]]]; [intros n Hn; apply H; right; exact Hn|].
    rewrite Hj, E. simpl. exists (j :: iso).
    split; [reflexivity|]. split; [simpl; lia|].
    intros [|i] name Hn; simpl in Hn.
    + injection Hn as <-. exists j. split; [reflexivity|].
      exact (proj1 (list_index_ok x isotopes j Hj)).
    + exact (N i name Hn).
Qed.

(** X3. Without a partition-function file the isotope list is the sorted
    list of the isotopes of the files, and the isotope index of every
    file is found: looking the index up in that list gives back the
    isotope of the file. *)
Theorem iso_indices_unique (isot : list string) :
  exists iso,
    iso_indices (np_unique isot) isot = Ok iso
    /\ List.length iso = List.length isot
    /\ forall i name, nth_error isot i = Some name ->
         exists j, nth_error iso i = Some j
                   /\ nth_error (np_unique isot) j = Some name.
Proof.
  apply iso_indices_spec. intros name H. apply np_unique_In. exact H.
Qed.

(** X4. With an isotope list from elsewhere (a partition-function file),
    the isotope indices fail with [ValueError] exactly when some file has
    an isotope that the list does not hold. *)
Theorem iso_indices_missing (isotopes isot : list string) :
  iso_indices isotopes isot = Raise ValueError
  <-> exists name, In name isot /\ ~ In name isotopes.
Proof.
  split.
  - induction isot as [|x isot IH]; simpl; intro H; [discriminate|].
    destruct (in_dec string_dec x isotopes) as [I|N].
    + destruct (list_index_In x isotopes I) as [j Hj].
      rewrite Hj in H. cbn [bind] in H.
      destruct (iso_indices isotopes isot) as [js|e] eqn:E;
        cbn [bind] in H; [discriminate|].
      destruct (IH H) as [name [A B]]. exists name. split; [right|]; assumption.
    + exists x. split; [left; reflexivity|exact N].
  - intros [name [A B]].
    induction isot as [|x isot IH]; [contradiction|]. simpl.
    destruct (in_dec string_dec x isotopes) as [I|N].
    + destruct (list_index_In x isotopes I) as [j Hj]. rewrite Hj. cbn [bind].
      destruct A as [A|A]; [subst x; contradiction|].
      rewrite (IH A). reflexivity.
    + rewrite (list_index_not_In x isotopes N). reflexivity.
Qed.

Lemma lbl_tags_spec (isot : list string) :
  forall isotopes,
    (forall name, In name isotopes -> In name isot) ->
    exists tags,
      lbl_tags isotopes isot = Ok tags
      /\ forall j name, nth_error isotopes j = Some name ->
           exists t, nth_error tags j = Some t
                     /\ list_index name isot = Ok t.
Proof.
  induction isotopes as [|x isotopes IH]; intro H; simpl.
  - exists []. split; [reflexivity|]. intros [|j] name Hn; discriminate.
  - destruct (list_index_In x isot (H x (or_introl eq_refl))) as [t Ht].
    destruct IH as [tags [E N]]; [intros n Hn; apply H; right; exact Hn|].
    rewrite Ht, E. simpl. exists (t :: tags). split; [reflexivity|].
    intros [|j] name Hn; simpl in Hn.
    + injection Hn as <-. exists t. split; [reflexivity|exact Ht].
    + exact (N j name Hn).
Qed.

(** X5. In an ExoMol run without a partition-function file, the isotope
    index handed to the source of a file is the position, in the list of
    input files, of the first file with the same isotope (a file index,
    not a position in the isotope list). *)
Theorem source_tag_first_file (isot : list string) (idx : nat)
    (name : string) :
  nth_error isot idx = Some name ->
  exists t,
    source_tag (np_unique isot) isot idx = Ok t
    /\ (t <= idx)%nat
    /\ nth_error isot t = Some name
    /\ forall k, (k < t)%nat -> nth_error isot k <> Some name.
Proof.
  intro H.
  destruct (iso_indices_spec (np_unique isot) isot) as [iso [E [_ N]]].
  { intros n Hn. apply np_unique_In. exact Hn. }
  destruct (lbl_tags_spec isot (np_unique isot)) as [tags [T M]].
  { intros n Hn. apply np_unique_In. exact Hn. }
  destruct (N idx name H) as [j [Hj Hu]].
  destruct (M j name Hu) as [t [Ht Hi]].
  destruct (list_index_ok name isot t Hi) as [A B].
  exists t. unfold source_tag. rewrite E, T. cbn [bind]. rewrite Hj, Ht.
  split; [reflexivity|]. split; [|split; assumption].
  destruct (Nat.le_gt_cases t idx) as [L|G]; [exact L|].
  exfalso. exact (B idx G H).
Qed.

Lemma source_tag_first_file_witness :
  exists t,
    source_tag (np_unique ["26"; "16"; "26"; "17"]%string)
               ["26"; "16"; "26"; "17"]%string 2 = Ok t
    /\ (t <= 2)%nat
    /\ nth_error ["26"; "16"; "26"; "17"]%string t = Some "26"%string
    /\ forall k, (k < t)%nat ->
         nth_error ["26"; "16"; "26"; "17"]%string k <> Some "26"%string.
Proof.
  apply (source_tag_first_file ["26"; "16"; "26"; "17"]%string 2 "26").
  reflexivity.
Defined.

(** The isotope list is 16, 17, 26; the files have the isotope indices
    2, 0, 2, 1 and their sources are given 0, 1, 0, 3. *)
Example source_tag_run :
  iso_indices (np_unique ["26"; "16"; "26"; "17"]%string)
              ["26"; "16"; "26"; "17"]%string
  = Ok [2; 0; 2; 1]%nat
  /\ map (source_tag (np_unique ["26"; "16"; "26"; "17"]%string)
                     ["26"; "16"; "26"; "17"]%string) [0; 1; 2; 3]%nat
     = [Ok 0; Ok 1; Ok 0; Ok 3]%nat.
Proof. split; reflexivity. Qed.

(** ** Binary search on sorted sources *)

Lemma nondecreasingb_sound (rows : list Q) :
  nondecreasingb rows = true ->
  forall i j a b,
    (i <= j)%nat -> nth_error rows i = Some a -> nth_error rows j = Some b ->
    (a <= b)%Q.
Proof.
  induction rows as [|x rows IH]; intros H i j a b Hij Ha Hb.
  - destruct i; discriminate.
  - destruct rows as [|y rows].
    + destruct i as [|i]; [|destruct i; discriminate].
      destruct j as [|j]; [|destruct j; discriminate].
      simpl in Ha, Hb. injection Ha as <-. injection Hb as <-.
      apply Qle_refl.
    + simpl in H. apply andb_true_iff in H. destruct H as [Hxy Hr].
      apply Qle_bool_iff in Hxy.
      destruct i as [|i].
      * simpl in Ha. injection Ha as <-.
        destruct j as [|j].
        -- simpl in Hb. injection Hb as <-. apply Qle_refl.
        -- simpl in Hb. apply Qle_trans with y; [exact Hxy|].
           apply (IH Hr 0%nat j y b); [lia|reflexivity|exact Hb].
      * destruct j as [|j]; [lia|]. simpl in Ha, Hb.
        apply (IH Hr i j a b); [lia|exact Ha|exact Hb].
Qed.

Lemma nondecreasingb_source (l : lbl) :
  nondecreasingb (wnrows l) = true -> nondecreasing l.
Proof.
  intros H i j a b Hi Hij Hj Ea Eb.
  apply getwn_ok_range in Ea. apply getwn_ok_range in Eb.
  apply (nondecreasingb_sound _ H (Z.to_nat i) (Z.to_nat j)); [lia|tauto|tauto].
Qed.

Lemma Qabs_below (val a : Q) : (a <= val)%Q -> (Qabs (val - a) == val - a)%Q.
Proof. intro H. apply Qabs_pos. lra. Qed.

Lemma Qabs_above (val a : Q) : (val <= a)%Q -> (Qabs (val - a) == a - val)%Q.
Proof.
  intro H. rewrite Qabs_neg by lra. ring.
Qed.

(** Away from the two ends of the file, [bs] stops on two neighbouring
    rows that enclose the value, and takes the upper one only when it is
    strictly closer. *)
Lemma bs_bracket (l : lbl) (val w0 wN : Q) :
  well_formed l ->
  getwn l 0 = Ok w0 -> (w0 < val)%Q ->
  getwn l (nlines l - 1) = Ok wN -> (val < wN)%Q ->
  forall lo hi wlo whi,
    0 <= lo -> lo < hi -> hi <= nlines l - 1 ->
    getwn l lo = Ok wlo -> (wlo <= val)%Q ->
    getwn l hi = Ok whi -> (val < whi)%Q ->
    exists m wm wm',
      lo <= m /\ m < hi
      /\ getwn l m = Ok wm /\ getwn l (m + 1) = Ok wm'
      /\ (wm <= val)%Q /\ (val < wm')%Q
      /\ bs l val lo hi
         = Ok (if Qlt_bool (Qabs (val - wm')) (Qabs (val - wm))
               then m + 1 else m).
Proof.
  intros [W1 W2] E0 H0 EN HN lo hi.
  pattern lo, hi. apply bs_induction. clear lo hi.
  intros lo hi IH wlo whi L0 L1 L2 Elo Hlo Ehi Hhi.
  rewrite bs_unfold, E0. cbn [bind].
  pose proof H0 as H0'. apply Qle_bool_false_iff in H0'. rewrite H0', EN.
  cbn [bind].
  pose proof HN as HN'. apply Qle_bool_false_iff in HN'. rewrite HN'.
  destruct (hi - lo <=? 1) eqn:E.
  - apply Z.leb_le in E. assert (hi = lo + 1) by lia. subst hi.
    rewrite Ehi, Elo. cbn [bind].
    exists lo, wlo, whi. repeat split; try lia; try assumption.
    destruct (Qlt_bool (Qabs (val - whi)) (Qabs (val - wlo))); reflexivity.
  - apply Z.leb_gt in E. pose proof (mid_between lo hi E) as M.
    cbv zeta.
    destruct (getwn_total l (Z.quot (hi + lo) 2) ltac:(lia)) as [wm Em].
    rewrite Em. cbn [bind].
    destruct (Qlt_bool val wm) eqn:Cm.
    + apply Qlt_bool_iff in Cm.
      destruct (IH lo (Z.quot (hi + lo) 2) E ltac:(lia) wlo wm
                  ltac:(lia) ltac:(lia) ltac:(lia) Elo Hlo Em Cm)
        as [m [a [b [A1 [A2 R]]]]].
      exists m, a, b. split; [lia|]. split; [lia|exact R].
    + apply Qlt_bool_false_iff in Cm.
      destruct (IH (Z.quot (hi + lo) 2) hi E ltac:(lia) wm whi
                  ltac:(lia) ltac:(lia) ltac:(lia) Em Cm Ehi Hhi)
        as [m [a [b [A1 [A2 R]]]]].
      exists m, a, b. split; [lia|]. split; [lia|exact R].
Qed.

(** The three ways a search of the whole file can end. *)
Lemma bs_whole_cases (l : lbl) (val : Q) :
  well_formed l ->
  exists w0 wN,
    getwn l 0 = Ok w0 /\ getwn l (nlines l - 1) = Ok wN
    /\ (((val <= w0)%Q /\ bs l val 0 (nlines l - 1) = Ok 0)
        \/ ((w0 < val)%Q /\ (wN <= val)%Q
            /\ bs l val 0 (nlines l - 1) = Ok (nlines l - 1))
        \/ ((w0 < val)%Q /\ (val < wN)%Q
            /\ exists m wm wm',
                 0 <= m /\ m < nlines l - 1
                 /\ getwn l m = Ok wm /\ getwn l (m + 1) = Ok wm'
                 /\ (wm <= val)%Q /\ (val < wm')%Q
                 /\ bs l val 0 (nlines l - 1)
                    = Ok (if Qlt_bool (Qabs (val - wm')) (Qabs (val - wm))
                          then m + 1 else m))).
Proof.
  intro W. pose proof W as [W1 W2].
  destruct (getwn_total l 0 ltac:(lia)) as [w0 E0].
  destruct (getwn_total l (nlines l - 1) ltac:(lia)) as [wN EN].
  exists w0, wN. split; [exact E0|]. split; [exact EN|].
  destruct (Qlt_le_dec w0 val) as [H0|H0].
  - destruct (Qlt_le_dec val wN) as [HN|HN].
    + right. right. split; [exact H0|]. split; [exact HN|].
      assert (Hlt : 0 < nlines l - 1).
      { destruct (Z.eq_dec (nlines l - 1) 0) as [Z0|Z0]; [|lia].
        exfalso. rewrite Z0 in EN. assert (wN = w0) by congruence. subst wN.
        exact (Qlt_irrefl _ (Qlt_trans _ _ _ H0 HN)). }
      apply (bs_bracket l val w0 wN W E0 H0 EN HN 0 (nlines l - 1) w0 wN);
        try lia; try assumption.
      apply Qlt_le_weak. exact H0.
    + right. left. split; [exact H0|]. split; [exact HN|].
      exact (bs_high l val w0 wN _ _ E0 H0 EN HN).
  - left. split; [exact H0|]. exact (bs_low l val w0 _ _ E0 H0).
Qed.



(** A search of the whole file moves to the right with the value. *)
Lemma bs_order (l : lbl) (v1 v2 : Q) (r1 r2 : Z) :
  well_formed l -> nondecreasing l ->
  (v1 <= v2)%Q ->
  bs l v1 0 (nlines l - 1) = Ok r1 ->
  bs l v2 0 (nlines l - 1) = Ok r2 ->
  r1 <= r2.
Proof.
  intros W Inc V R1 R2. pose proof W as [W1 W2].
  pose proof (bs_nonneg _ _ _ _ _ R2) as N2.
  pose proof (bs_bounds l v1 0 (nlines l - 1) r1 ltac:(lia) ltac:(lia)
                ltac:(lia) R1) as B1.
  destruct (bs_whole_cases l v1 W)
    as [w0 [wN [E0 [EN [[H0 Q1]|[[H0 [HN Q1]]|[H0 [HN B]]]]]]]].
  - rewrite Q1 in R1. injection R1 as <-. exact N2.
  - rewrite (bs_high l v2 w0 wN _ _ E0 ltac:(lra) EN ltac:(lra)) in R2.
    injection R2 as <-. lia.
  - destruct (bs_whole_cases l v2 W)
      as [w0' [wN' [E0' [EN' [[H0' Q2]|[[H0' [HN' Q2]]|[H0' [HN' B']]]]]]]];
      assert (w0' = w0) by congruence; assert (wN' = wN) by congruence;
      subst w0' wN'.
    + exfalso. lra.
    + rewrite Q2 in R2. injection R2 as <-. lia.
    + destruct B as [m [wm [wm' [M0 [M1 [Em [Em' [Hm [Hm' Q1]]]]]]]]].
      destruct B' as [n [wn [wn' [N0 [N1 [En [En' [Hn [Hn' Q2]]]]]]]]].
      assert (X1 : r1 = if Qlt_bool (Qabs (v1 - wm')) (Qabs (v1 - wm))
                        then m + 1 else m) by congruence.
      assert (X2 : r2 = if Qlt_bool (Qabs (v2 - wn')) (Qabs (v2 - wn))
                        then n + 1 else n) by congruence.
      rewrite X1, X2. clear X1 X2 B1 N2 R1 R2 Q1 Q2.
      assert (Hmn : m <= n).
      { destruct (Z_le_gt_dec m n) as [G|G]; [exact G|]. exfalso.
        pose proof (Inc (n + 1) m wn' wm ltac:(lia) ltac:(lia) ltac:(lia)
                        En' Em).
        lra. }
      destruct (Z.eq_dec m n) as [->|Ne].
      * assert (wn = wm) by congruence. assert (wn' = wm') by congruence.
        subst wn wn'.
        destruct (Qlt_bool (Qabs (v1 - wm')) (Qabs (v1 - wm))) eqn:C1;
          destruct (Qlt_bool (Qabs (v2 - wm')) (Qabs (v2 - wm))) eqn:C2;
          cbv iota; try lia.
        exfalso. apply Qlt_bool_iff in C1. apply Qlt_bool_false_iff in C2.
        rewrite (Qabs_above v1 wm') in C1 by lra.
        rewrite (Qabs_below v1 wm) in C1 by lra.
        rewrite (Qabs_above v2 wm') in C2 by lra.
        rewrite (Qabs_below v2 wm) in C2 by lra.
        lra.
      * destruct (Qlt_bool (Qabs (v1 - wm')) (Qabs (v1 - wm)));
          destruct (Qlt_bool (Qabs (v2 - wn')) (Qabs (v2 - wn)));
          cbv iota; lia.
Qed.

(** X7. On a well-formed source with non-decreasing wavenumbers the index
    found by a search of the whole file does not decrease when the value
    grows. *)
Theorem bs_monotone (l : lbl) (v1 v2 : Q) :
  well_formed l -> nondecreasing l ->
  (v1 <= v2)%Q ->
  exists r1 r2,
    bs l v1 0 (nlines l - 1) = Ok r1
    /\ bs l v2 0 (nlines l - 1) = Ok r2
    /\ r1 <= r2.
Proof.
  intros W Inc V. pose proof W as [W1 W2].
  destruct (bs_total l v1 W 0 (nlines l - 1) ltac:(lia) ltac:(lia) ltac:(lia))
    as [r1 R1].
  destruct (bs_total l v2 W 0 (nlines l - 1) ltac:(lia) ltac:(lia) ltac:(lia))
    as [r2 R2].
  exists r1, r2. split; [exact R1|]. split; [exact R2|].
  exact (bs_order l v1 v2 r1 r2 W Inc V R1 R2).
Qed.

Lemma bs_monotone_witness :
  exists r1 r2,
    bs (source [1; 4; 4; 9]%Q) 2 0 3 = Ok r1
    /\ bs (source [1; 4; 4; 9]%Q) 7 0 3 = Ok r2
    /\ r1 <= r2.
Proof.
  apply (bs_monotone (source [1; 4; 4; 9]%Q) 2 7).
  - apply well_formed_source. discriminate.
  - apply nondecreasingb_source. reflexivity.
  - discriminate.
Defined.

Lemma count_loop_order (v1 v2 : Q) :
  (v1 <= v2)%Q ->
  forall lbls acc1 acc2,
    sorted_sources lbls ->
    exists c1 c2,
      count_loop lbls v1 acc1 = Ok (acc1 + c1)
      /\ count_loop lbls v2 acc2 = Ok (acc2 + c2)
      /\ 0 <= c1 /\ c1 <= c2 /\ c2 <= rows_bound lbls.
Proof.
  intro V. induction lbls as [|l lbls IH]; intros acc1 acc2 HS; simpl.
  - exists 0, 0. rewrite !Z.add_0_r. repeat split; lia.
  - inversion HS as [|? ? [W Inc] HS']; subst.
    pose proof W as [W1 W2].
    destruct (bs_total l v1 W 0 (nlines l - 1) ltac:(lia) ltac:(lia)
                ltac:(lia)) as [r1 R1].
    destruct (bs_total l v2 W 0 (nlines l - 1) ltac:(lia) ltac:(lia)
                ltac:(lia)) as [r2 R2].
    pose proof (bs_order l v1 v2 r1 r2 W Inc V R1 R2) as O.
    pose proof (bs_nonneg _ _ _ _ _ R1) as N1.
    pose proof (bs_bounds l v2 0 (nlines l - 1) r2 ltac:(lia) ltac:(lia)
                  ltac:(lia) R2) as B2.
    rewrite R1, R2. cbn [bind].
    destruct (IH (acc1 + r1) (acc2 + r2) HS') as [c1 [c2 [Q1 [Q2 [A [B D]]]]]].
    exists (r1 + c1), (r2 + c2). rewrite Q1, Q2.
    split; [f_equal; lia|]. split; [f_equal; lia|]. lia.
Qed.

(** X8. For a group of well-formed sources with non-decreasing
    wavenumbers, [count] returns for every wavenumber, does not decrease
    when the wavenumber grows, and stays between 0 and the sum of
    [nlines - 1] over the sources. *)
Theorem count_monotone (lbls : list lbl) (v1 v2 : Q) :
  sorted_sources lbls ->
  (v1 <= v2)%Q ->
  exists c1 c2,
    count lbls v1 = Ok c1 /\ count lbls v2 = Ok c2
    /\ 0 <= c1 /\ c1 <= c2 /\ c2 <= rows_bound lbls.
Proof.
  intros HS V. unfold count.
  destruct (count_loop_order v1 v2 V lbls 0 0 HS) as [c1 [c2 [Q1 [Q2 H]]]].
  exists c1, c2. rewrite Q1, Q2. split; [reflexivity|].
  split; [reflexivity|exact H].
Qed.

Lemma sorted_sources_example :
  sorted_sources [source (ramp 1 100); source (ramp 51 100)].
Proof.
  repeat constructor;
    try (apply (well_formed_source _); discriminate);
    apply nondecreasingb_source; vm_compute; reflexivity.
Qed.

Lemma count_monotone_witness :
  exists c1 c2,
    count [source (ramp 1 100); source (ramp 51 100)] (121 # 2) = Ok c1
    /\ count [source (ramp 1 100); source (ramp 51 100)] 80 = Ok c2
    /\ 0 <= c1 /\ c1 <= c2
    /\ c2 <= rows_bound [source (ramp 1 100); source (ramp 51 100)].
Proof.
  apply (count_monotone [source (ramp 1 100); source (ramp 51 100)]
           (121 # 2) 80).
  - exact sorted_sources_example.
  - discriminate.
Defined.

(** X9. On a well-formed source, a search between two rows of the file
    ([0 <= lo <= hi <= nlines-1]) raises nothing and returns a row of the
    file that can be read. *)
Theorem bs_in_file (l : lbl) (val : Q) (lo hi : Z) :
  well_formed l ->
  0 <= lo -> lo <= hi -> hi <= nlines l - 1 ->
  exists r w,
    bs l val lo hi = Ok r /\ 0 <= r <= nlines l - 1 /\ getwn l r = Ok w.
Proof.
  intros W H0 H1 H2.
  destruct (bs_total l val W lo hi H0 H1 H2) as [r R].
  destruct (bs_readable l val lo hi r R) as [w Ew].
  exists r, w. split; [exact R|]. split; [|exact Ew].
  exact (bs_bounds l val lo hi r H0 H1 H2 R).
Qed.

Lemma bs_in_file_witness :
  exists r w,
    bs (source (ramp 100 7)) (207 # 2) 2 5 = Ok r
    /\ 0 <= r <= 6 /\ getwn (source (ramp 100 7)) r = Ok w.
Proof.
  apply (bs_in_file (source (ramp 100 7)) (207 # 2) 2 5).
  - apply well_formed_source. discriminate.
  - lia.
  - lia.
  - simpl. lia.
Defined.

(** With an upper bound beyond the file the search reads past the last
    row and fails. *)
Example bs_beyond_file :
  bs (source (ramp 100 7)) (207 # 2) 0 100 = Raise ValueError.
Proof. reflexivity. Qed.

(** ** The index range on sorted sources *)

(** Away from the two ends of the file and below a row above the value,
    every row after the one [bs] returns is above the value. *)
Lemma bs_rows_after (l : lbl) (val w0 wN : Q) :
  well_formed l -> nondecreasing l ->
  getwn l 0 = Ok w0 -> (w0 < val)%Q ->
  getwn l (nlines l - 1) = Ok wN -> (val < wN)%Q ->
  forall lo hi whi r,
    0 <= lo -> lo <= hi -> hi <= nlines l - 1 ->
    getwn l hi = Ok whi -> (val < whi)%Q ->
    bs l val lo hi = Ok r ->
    forall j wj, r < j <= nlines l - 1 -> getwn l j = Ok wj -> (val < wj)%Q.
Proof.
  intros [W1 W2] Inc E0 H0 EN HN lo hi.
  pattern lo, hi. apply bs_induction. clear lo hi.
  intros lo hi IH whi r L0 L1 L2 Ehi Hhi R j wj Hj Ej.
  rewrite bs_unfold, E0 in R. cbn [bind] in R.
  pose proof H0 as H0'. apply Qle_bool_false_iff in H0'. rewrite H0', EN in R.
  cbn [bind] in R.
  pose proof HN as HN'. apply Qle_bool_false_iff in HN'. rewrite HN' in R.
  destruct (hi - lo <=? 1) eqn:E.
  - apply Z.leb_le in E. rewrite Ehi in R. cbn [bind] in R.
    destruct (getwn l lo) as [wlo|] eqn:Elo; cbn [bind] in R; [|discriminate].
    assert (Hr : r = hi \/ r = lo).
    { destruct (Qlt_bool (Qabs (val - whi)) (Qabs (val - wlo)));
        [left|right]; congruence. }
    assert (hi <= j) by lia.
    pose proof (Inc hi j whi wj ltac:(lia) ltac:(lia) ltac:(lia) Ehi Ej).
    lra.
  - apply Z.leb_gt in E. pose proof (mid_between lo hi E) as M.
    cbv zeta in R.
    destruct (getwn l (Z.quot (hi + lo) 2)) as [wm|] eqn:Em; cbn [bind] in R;
      [|discriminate].
    destruct (Qlt_bool val wm) eqn:Cm.
    + apply Qlt_bool_iff in Cm.
      exact (IH lo (Z.quot (hi + lo) 2) E ltac:(lia) wm r ltac:(lia)
                ltac:(lia) ltac:(lia) Em Cm R j wj Hj Ej).
    + exact (IH (Z.quot (hi + lo) 2) hi E ltac:(lia) whi r ltac:(lia)
                ltac:(lia) ltac:(lia) Ehi Hhi R j wj Hj Ej).
Qed.

(** X10. On a well-formed source with non-decreasing wavenumbers and a
    window with [wnmin <= wnmax], the driver's index range is returned and
    lies in the file; every row before [i0] is below [wnmin] and every row
    after [iN] is at or above [wnmax], so the rows with
    [wnmin <= nu < wnmax] all lie between [i0] and [iN]. *)
Theorem index_range_window (l : lbl) (wnmin wnmax : Q) :
  well_formed l -> nondecreasing l ->
  (wnmin <= wnmax)%Q ->
  exists i0 iN,
    index_range l wnmin wnmax = Ok (i0, iN)
    /\ 0 <= i0 /\ i0 <= iN /\ iN <= nlines l - 1
    /\ (forall j wj, 0 <= j < i0 -> getwn l j = Ok wj -> (wj < wnmin)%Q)
    /\ (forall j wj, iN < j <= nlines l - 1 -> getwn l j = Ok wj ->
          (wnmax <= wj)%Q)
    /\ (forall j wj, 0 <= j <= nlines l - 1 -> getwn l j = Ok wj ->
          (wnmin <= wj)%Q -> (wj < wnmax)%Q -> i0 <= j <= iN).
Proof.
  intros W Inc L. pose proof W as [W1 W2].
  destruct (bs_total l wnmin W 0 (nlines l - 1) ltac:(lia) ltac:(lia)
              ltac:(lia)) as [b0 Eb0].
  pose proof (bs_bounds l wnmin 0 (nlines l - 1) b0 ltac:(lia) ltac:(lia)
                ltac:(lia) Eb0) as Bb0.
  destruct (widen_left_total l wnmin (Z.to_nat b0) b0 ltac:(lia)) as [i0 Ei0].
  destruct (widen_left_spec l wnmin (Z.to_nat b0) b0 i0 ltac:(lia) Ei0)
    as [L1 [L2 [_ L4]]].
  destruct (bs_total l wnmax W i0 (nlines l - 1) ltac:(lia) ltac:(lia)
              ltac:(lia)) as [bN EbN].
  pose proof (bs_bounds l wnmax i0 (nlines l - 1) bN ltac:(lia) ltac:(lia)
                ltac:(lia) EbN) as BbN.
  destruct (widen_right_total l wnmin W2 (Z.to_nat (nlines l - 1 - bN)) bN
              ltac:(lia)) as [iN EiN].
  destruct (widen_right_spec l wnmin (Z.to_nat (nlines l - 1 - bN)) bN iN
              ltac:(lia) EiN) as [R1 [R2 [_ _]]].
  assert (Range : index_range l wnmin wnmax = Ok (i0, iN)).
  { unfold index_range. rewrite Eb0. cbn [bind]. rewrite Ei0. cbn [bind].
    rewrite EbN. cbn [bind]. rewrite EiN. reflexivity. }
  destruct (index_range_ordered l wnmin wnmax i0 iN L Range) as [P0 [P1 _]].
  assert (Left : forall j wj, 0 <= j < i0 -> getwn l j = Ok wj ->
                   (wj < wnmin)%Q).
  { intros j wj Hj Ej. destruct L4 as [L4|[w [Ew Hw]]]; [lia|].
    pose proof (Inc j (i0 - 1) wj w ltac:(lia) ltac:(lia) ltac:(lia) Ej Ew).
    lra. }
  assert (Right : forall j wj, iN < j <= nlines l - 1 -> getwn l j = Ok wj ->
                    (wnmax <= wj)%Q).
  { intros j wj Hj Ej.
    destruct (bs_result l wnmax i0 (nlines l - 1) bN EbN)
      as [w0 [E0 [[H0 _]|[H0 [wN [EN [[HN Hb]|[HN _]]]]]]]].
    - pose proof (Inc 0 j w0 wj ltac:(lia) ltac:(lia) ltac:(lia) E0 Ej). lra.
    - lia.
    - apply Qlt_le_weak.
      apply (bs_rows_after l wnmax w0 wN W Inc E0 H0 EN HN i0 (nlines l - 1)
               wN bN ltac:(lia) ltac:(lia) ltac:(lia) EN HN EbN j wj);
        [lia|exact Ej]. }
  exists i0, iN. split; [exact Range|].
  split; [lia|]. split; [lia|]. split; [lia|].
  split; [exact Left|]. split; [exact Right|].
  intros j wj Hj Ej Hlo Hhi. split.
  - destruct (Z_le_gt_dec i0 j) as [G|G]; [exact G|]. exfalso.
    pose proof (Left j wj ltac:(lia) Ej). lra.
  - destruct (Z_le_gt_dec j iN) as [G|G]; [exact G|]. exfalso.
    pose proof (Right j wj ltac:(lia) Ej). lra.
Qed.

Lemma index_range_window_witness :
  exists i0 iN,
    index_range (source (ramp 1 10)) (5 # 2) (17 # 2) = Ok (i0, iN)
    /\ 0 <= i0 /\ i0 <= iN /\ iN <= 10 - 1
    /\ (forall j wj, 0 <= j < i0 -> getwn (source (ramp 1 10)) j = Ok wj ->
          (wj < 5 # 2)%Q)
    /\ (forall j wj, iN < j <= 10 - 1 ->
          getwn (source (ramp 1 10)) j = Ok wj -> (17 # 2 <= wj)%Q)
    /\ (forall j wj, 0 <= j <= 10 - 1 ->
          getwn (source (ramp 1 10)) j = Ok wj ->
          (5 # 2 <= wj)%Q -> (wj < 17 # 2)%Q -> i0 <= j <= iN).
Proof.
  apply (index_range_window (source (ramp 1 10)) (5 # 2) (17 # 2)).
  - apply well_formed_source. discriminate.
  - apply nondecreasingb_source. reflexivity.
  - discriminate.
Defined.

(** The window is [2.5, 8.5] and the rows are 1, 2, ..., 10: the range
    goes from row 1 (wavenumber 2) to row 7 (wavenumber 8), and the plan
    of one chunk reads the rows 1 to 6. *)
Example index_range_run :
  index_range (source (ramp 1 10)) (5 # 2) (17 # 2) = Ok (1, 7)
  /\ chunk_plan 0 [source (ramp 1 10)] (5 # 2) (17 # 2) 100 = Ok [[1]; [7]].
Proof. split; reflexivity. Qed.

(** ** Plans stay inside the files *)

Lemma index_range_in_file (l : lbl) (wnmin wnmax : Q) (i0 iN : Z) :
  well_formed l ->
  index_range l wnmin wnmax = Ok (i0, iN) ->
  0 <= i0 <= nlines l - 1 /\ 0 <= iN <= nlines l - 1.
Proof.
  intros [W1 W2] H. unfold index_range in H.
  apply bind_ok in H. destruct H as [b0 [Eb0 H]].
  apply bind_ok in H. destruct H as [i0' [Ei0 H]].
  apply bind_ok in H. destruct H as [bN [EbN H]].
  apply bind_ok in H. destruct H as [iN' [EiN H]].
  injection H as -> ->.
  pose proof (bs_bounds l wnmin 0 (nlines l - 1) b0 ltac:(lia) ltac:(lia)
                ltac:(lia) Eb0) as Bb0.
  destruct (widen_left_spec l wnmin (Z.to_nat b0) b0 i0 ltac:(lia) Ei0)
    as [L1 [L2 _]].
  pose proof (bs_bounds l wnmax i0 (nlines l - 1) bN ltac:(lia) ltac:(lia)
                ltac:(lia) EbN) as BbN.
  destruct (widen_right_spec l wnmin (Z.to_nat (nlines l - 1 - bN)) bN iN
              ltac:(lia) EiN) as [R1 [R2 _]].
  lia.
Qed.

Lemma ordered_between (f : nat -> Z) (len : nat) :
  (forall n, (S n < len)%nat -> f n <= f (S n)) ->
  forall n, (n < len)%nat -> f 0%nat <= f n /\ f n <= f (len - 1)%nat.
Proof.
  intros Hmono.
  assert (Gap : forall d a, (a + d < len)%nat -> f a <= f (a + d)%nat).
  { induction d as [|d IH]; intros a Ha.
    - rewrite Nat.add_0_r. lia.
    - replace (a + S d)%nat with (S (a + d)) by lia.
      pose proof (IH a ltac:(lia)). pose proof (Hmono (a + d)%nat ltac:(lia)).
      lia. }
  intros n Hn. split.
  - exact (Gap n 0%nat ltac:(lia)).
  - pose proof (Gap (len - 1 - n)%nat n ltac:(lia)) as G.
    replace (n + (len - 1 - n))%nat with (len - 1)%nat in G by lia. exact G.
Qed.

(** Every boundary of a plan lies between the two ends of the index range
    of its source. *)
Lemma chunk_plan_between (limit : nat) (lbls : list lbl) (wnmin wnmax : Q)
    (chunksize : Z) (p : plan) :
  (wnmin <= wnmax)%Q ->
  chunk_plan limit lbls wnmin wnmax chunksize = Ok p ->
  forall k l n,
    nth_error lbls k = Some l -> (n < List.length p)%nat ->
    exists i0 iN,
      index_range l wnmin wnmax = Ok (i0, iN)
      /\ i0 <= C p k n <= iN.
Proof.
  intros L H k l n Hk Hn.
  destruct (chunk_plan_shape _ _ _ _ _ _ H)
    as [ranges [nchunks [F [En [Hc Shape]]]]].
  destruct (Forall2_nth_error _ _ _ F k l Hk) as [[i0 iN] [Hr Er]].
  exists i0, iN. split; [exact Er|].
  destruct (index_range_ordered l wnmin wnmax i0 iN L Er) as [P0 [P1 _]].
  destruct Shape as [[l' [r' [-> [-> ->]]]]|[[-> ->]|[Hpos [mids [Em ->]]]]].
  - destruct k as [|k]; [|destruct k; discriminate].
    simpl in Hr. injection Hr as ->. simpl fst. simpl snd.
    rewrite !length_map in Hn. unfold linspace in Hn.
    rewrite length_map, length_seq in Hn.
    rewrite single_plan_C by lia.
    destruct (nchunks =? 0) eqn:E0.
    + apply Z.eqb_eq in E0. subst nchunks. simpl in Hn.
      assert (n = 0%nat) by lia. subst n.
      assert (Q0 : (linspace_at (inject_Z iN) (inject_Z iN) (Z.to_nat (0 + 1))
                                0 == inject_Z iN)%Q).
      { unfold linspace_at. simpl. ring. }
      rewrite (Qtrunc_comp _ _ Q0), Qtrunc_inject_Z. lia.
    + apply Z.eqb_neq in E0.
      replace (Z.to_nat (nchunks + 1)) with (S (Z.to_nat nchunks)) in * by lia.
      rewrite Qtrunc_linspace_at by lia.
      assert (0 <= Z.of_nat n * (iN - i0) / Z.of_nat (Z.to_nat nchunks)
              <= iN - i0).
      { split.
        - apply Z.div_pos; nia.
        - apply Z.div_le_upper_bound; nia. }
      lia.
  - simpl in Hn. assert (n = 0%nat) by lia. subst n. unfold C. simpl.
    rewrite (nth_error_nth _ _ 0 (map_nth_error snd k ranges Hr)). simpl. lia.
  - assert (Ch : chain (map fst ranges :: mids ++ [map snd ranges])).
    { refine (proj1 (balance_columns_chain limit lbls wnmax _ (map snd ranges)
                       (Z.to_nat (nchunks - 1)) wnmin (map fst ranges) mids L
                       _ Em)).
      apply col_inv_ranges; assumption. }
    destruct (ordered_between
                (C (map fst ranges :: mids ++ [map snd ranges]) k)
                (List.length (map fst ranges :: mids ++ [map snd ranges]))
                (chain_C _ Ch k) n Hn) as [A B].
    assert (E0 : C (map fst ranges :: mids ++ [map snd ranges]) k 0 = i0).
    { unfold C. simpl. apply nth_error_nth.
      rewrite (map_nth_error fst k ranges Hr). reflexivity. }
    assert (EN : C (map fst ranges :: mids ++ [map snd ranges]) k
                   (List.length (map fst ranges :: mids ++ [map snd ranges])
                    - 1) = iN).
    { unfold C.
      replace (List.length (map fst ranges :: mids ++ [map snd ranges]) - 1)%nat
        with (S (List.length mids))
        by (simpl; rewrite length_app; simpl; lia).
      simpl. rewrite app_nth2 by lia. rewrite Nat.sub_diag. simpl.
      apply nth_error_nth.
      rewrite (map_nth_error snd k ranges Hr). reflexivity. }
    lia.
Qed.



(** ** Sampling grids *)

Lemma Qfloor_unique (q : Q) (k : Z) :
  (inject_Z k <= q)%Q -> (q < inject_Z (k + 1))%Q -> Qfloor q = k.
Proof.
  intros L U.
  pose proof (Qfloor_le q) as A. pose proof (Qlt_floor q) as B.
  assert (Qfloor q < k + 1).
  { rewrite Zlt_Qlt. eapply Qle_lt_trans; eassumption. }
  assert (k < Qfloor q + 1).
  { rewrite Zlt_Qlt. eapply Qle_lt_trans; eassumption. }
  lia.
Qed.

Lemma sampling_floor (lo hi step : Q) :
  (0 < step)%Q -> (lo <= hi)%Q ->
  sampling lo hi step = Ok (Qfloor ((hi - lo) / step) + 1)
  /\ 0 <= Qfloor ((hi - lo) / step).
Proof.
  intros Hs Hl.
  assert (X0 : (0 <= (hi - lo) / step)%Q).
  { apply Qle_shift_div_l; [exact Hs|]. lra. }
  assert (F0 : 0 <= Qfloor ((hi - lo) / step)).
  { change 0 with (Qfloor 0). apply Qfloor_resp_le. exact X0. }
  split; [|exact F0].
  unfold sampling.
  assert (E : Qeq_bool step 0 = false).
  { destruct (Qeq_bool step 0) eqn:E; [|reflexivity].
    apply Qeq_bool_iff in E. lra. }
  rewrite E. cbv zeta.
  rewrite Qtrunc_floor by lra.
  assert (F : Qfloor ((hi - lo) / step + 1) = Qfloor ((hi - lo) / step) + 1).
  { pose proof (Qfloor_le ((hi - lo) / step)) as A.
    pose proof (Qlt_floor ((hi - lo) / step)) as B.
    apply Qfloor_unique.
    - rewrite inject_Z_plus. change (inject_Z 1) with 1%Q. lra.
    - rewrite !inject_Z_plus in *. change (inject_Z 1) with 1%Q in *. lra. }
  rewrite F.
  destruct (Qfloor ((hi - lo) / step) + 1 <? 0) eqn:N; [|reflexivity].
  apply Z.ltb_lt in N. lia.
Qed.

Lemma linspace_nth (a b : Q) (num j : nat) (d : Q) :
  (j < num)%nat -> nth j (linspace a b num) d = linspace_at a b num j.
Proof.
  intro H. unfold linspace.
  rewrite (nth_indep _ d (linspace_at a b num 0))
    by (rewrite length_map, length_seq; exact H).
  rewrite (map_nth (linspace_at a b num)). rewrite seq_nth by exact H.
  reflexivity.
Qed.






Lemma Qtrunc_nonpos (x : Q) : (x <= 0)%Q -> Qtrunc x = - Qfloor (- x).
Proof.
  destruct x as [n d]. unfold Qle, Qtrunc, Qfloor, Qopp. simpl. intro Hx.
  rewrite <- (Z.opp_involutive n) at 1.
  rewrite Z.quot_opp_l by discriminate.
  f_equal. apply Z.quot_div_nonneg; lia.
Qed.



(** ** Isotope information *)

Lemma lstrip_empty (s : string) :
  lstrip s = EmptyString <-> all_space s = true.
Proof.
  induction s as [|c s IH]; simpl; [tauto|].
  destruct (is_space c); simpl; [exact IH|].
  split; discriminate.
Qed.

Lemma rstrip_empty (s : string) :
  rstrip s = EmptyString <-> all_space s = true.
Proof.
  induction s as [|c s IH]; simpl; [tauto|].
  destruct (rstrip s) as [|d r].
  - destruct (is_space c); simpl.
    + split; intro; [apply IH|]; reflexivity.
    + split; discriminate.
  - split; [discriminate|]. intro H. apply andb_prop in H.
    destruct H as [_ H]. apply IH in H. discriminate.
Qed.

Lemma lstrip_all_space (s : string) :
  all_space (lstrip s) = true -> all_space s = true.
Proof.
  induction s as [|c s IH]; simpl; [tauto|].
  destruct (is_space c) eqn:E; simpl; [exact IH|].
  rewrite E. simpl. discriminate.
Qed.

Lemma split_from_nil (s : string) :
  forall cur, split_from cur s = [] -> cur = EmptyString /\ all_space s = true.
Proof.
  induction s as [|c s IH]; intros cur H; simpl in H.
  - destruct cur; [split; reflexivity|discriminate].
  - simpl. destruct (is_space c); simpl.
    + destruct cur; [|discriminate]. split; [reflexivity|].
      apply (IH _ H).
    + apply IH in H. destruct H as [H _]. destruct cur; discriminate.
Qed.

(** A line that is not skipped has a first token: [info[0]] is there. *)
Lemma split_ws_first (line : string) :
  skipped line = false -> exists t, nth_error (split_ws line) 0 = Some t.
Proof.
  intro H. unfold skipped in H. apply orb_false_elim in H.
  destruct H as [_ H]. apply String.eqb_neq in H.
  destruct (split_ws line) as [|t ts] eqn:E; [exfalso|exists t; reflexivity].
  apply H. unfold strip. apply rstrip_empty.
  unfold split_ws in E. apply split_from_nil in E. destruct E as [_ E].
  assert (L : lstrip line = EmptyString) by (apply lstrip_empty; exact E).
  rewrite L. reflexivity.
Qed.

Lemma py_in_In (x : string) (l : list string) :
  py_in x l = true <-> In x l.
Proof.
  unfold py_in. rewrite existsb_exists. split.
  - intros [y [I E]]. apply String.eqb_eq in E. subst y. exact I.
  - intro I. exists x. split; [exact I|apply String.eqb_refl].
Qed.

Lemma list_update_length {A : Type} (l : list A) :
  forall k v, List.length (list_update l k v) = List.length l.
Proof.
  induction l as [|x l IH]; intros [|k] v; simpl; auto.
Qed.

Lemma list_update_same {A : Type} (l : list A) :
  forall k v, (k < List.length l)%nat ->
    nth_error (list_update l k v) k = Some v.
Proof.
  induction l as [|x l IH]; intros [|k] v H; simpl in *; try lia.
  - reflexivity.
  - apply IH. lia.
Qed.

Lemma list_update_other {A : Type} (l : list A) :
  forall k j v, j <> k ->
    nth_error (list_update l k v) j = nth_error l j.
Proof.
  induction l as [|x l IH]; intros [|k] [|j] v H; simpl; try reflexivity.
  - congruence.
  - apply IH. congruence.
Qed.

Section ReadIsoFacts.

Variable number : Type.
Variable zero : number.
Variable to_float : string -> result number.

(** What one line does to the arrays: nothing, or one entry of each array
    is set, at the first position of the isotope that the line names. *)
Lemma read_iso_line_cases (mol : string) (iso : list string)
    (dbtype line : string) (st st' : list number * list number) :
  read_iso_line to_float mol iso dbtype line st = Ok st' ->
  st' = st
  \/ exists c name k r m,
       iso_column dbtype = Ok c
       /\ names mol c name line
       /\ list_index name iso = Ok k
       /\ (exists t3, nth_error (split_ws line) 3 = Some t3
                      /\ to_float t3 = Ok r)
       /\ (exists t4, nth_error (split_ws line) 4 = Some t4
                      /\ to_float t4 = Ok m)
       /\ st' = (list_update (fst st) k r, list_update (snd st) k m).
Proof.
  unfold read_iso_line. intro H.
  destruct (skipped line) eqn:Sk; [left; congruence|].
  apply bind_ok in H. destruct H as [head [E0 H]].
  destruct (String.eqb head mol) eqn:Em; [|left; congruence].
  apply String.eqb_eq in Em. subst head.
  apply bind_ok in H. destruct H as [c [Ec H]].
  apply bind_ok in H. destruct H as [name [En H]].
  destruct (py_in name iso) eqn:Ei; [|left; congruence].
  apply bind_ok in H. destruct H as [t3 [E3 H]].
  apply bind_ok in H. destruct H as [k [Ek H]].
  apply bind_ok in H. destruct H as [r [Er H]].
  apply bind_ok in H. destruct H as [t4 [E4 H]].
  apply bind_ok in H. destruct H as [k' [Ek' H]].
  apply bind_ok in H. destruct H as [m [Emm H]].
  assert (k' = k) by congruence. subst k'.
  right. exists c, name, k, r, m.
  unfold item in *.
  destruct (nth_error (split_ws line) 0) as [h|] eqn:N0; [|discriminate].
  destruct (nth_error (split_ws line) c) as [n|] eqn:Nc; [|discriminate].
  destruct (nth_error (split_ws line) 3) as [a3|] eqn:N3; [|discriminate].
  destruct (nth_error (split_ws line) 4) as [a4|] eqn:N4; [|discriminate].
  split; [exact Ec|]. split; [unfold names; repeat split; congruence|].
  split; [exact Ek|].
  split; [exists a3; split; congruence|].
  split; [exists a4; split; congruence|].
  congruence.
Qed.

Lemma read_iso_lines_length (mol : string) (iso : list string)
    (dbtype : string) (lines : list string) :
  forall st st',
    read_iso_lines to_float mol iso dbtype lines st = Ok st' ->
    List.length (fst st') = List.length (fst st)
    /\ List.length (snd st') = List.length (snd st).
Proof.
  induction lines as [|line lines IH]; intros st st' H; simpl in H.
  - injection H as <-. split; reflexivity.
  - apply bind_ok in H. destruct H as [st1 [E1 H]].
    apply IH in H. destruct H as [H1 H2].
    apply read_iso_line_cases in E1.
    destruct E1 as [->|[c [name [k [r [m [_ [_ [_ [_ [_ ->]]]]]]]]]]].
    + split; assumption.
    + simpl in H1, H2. rewrite list_update_length in H1, H2.
      split; assumption.
Qed.

(** Lines that do not name an isotope leave its entries as they are. *)
Lemma read_iso_lines_untouched (mol : string) (iso : list string)
    (dbtype : string) (c : nat) (name : string) (k : nat) :
  iso_column dbtype = Ok c ->
  nth_error iso k = Some name ->
  forall lines st st',
    (forall line, In line lines -> ~ names mol c name line) ->
    read_iso_lines to_float mol iso dbtype lines st = Ok st' ->
    nth_error (fst st') k = nth_error (fst st) k
    /\ nth_error (snd st') k = nth_error (snd st) k.
Proof.
  intros Ec Hk.
  induction lines as [|line lines IH]; intros st st' Hn H; simpl in H.
  - injection H as <-. split; reflexivity.
  - apply bind_ok in H. destruct H as [st1 [E1 H]].
    apply IH in H; [|intros l I; apply Hn; right; exact I].
    destruct H as [H1 H2]. rewrite H1, H2.
    apply read_iso_line_cases in E1.
    destruct E1 as [->|[c' [name' [k' [r [m [Ec' [Nm [Ek [_ [_ ->]]]]]]]]]]].
    + split; reflexivity.
    + assert (c' = c) by congruence. subst c'.
      assert (k <> k').
      { intro. subst k'. apply list_index_ok in Ek. destruct Ek as [Ek _].
        assert (name' = name) by congruence. subst name'.
        apply (Hn line); [left; reflexivity|exact Nm]. }
      simpl. rewrite !list_update_other by assumption.
      split; reflexivity.
Qed.

Lemma iso_column_small (dbtype : string) (c : nat) :
  iso_column dbtype = Ok c -> (c <= 2)%nat.
Proof.
  unfold iso_column.
  destruct (String.eqb dbtype "exomol"); [intro H; injection H as <-; lia|].
  destruct (String.eqb dbtype "hitran"); [intro H; injection H as <-; lia|].
  discriminate.
Qed.

Lemma read_iso_lines_total (mol : string) (iso : list string)
    (dbtype : string) (c : nat) :
  iso_column dbtype = Ok c ->
  forall lines st,
    table_ok to_float mol lines ->
    exists st', read_iso_lines to_float mol iso dbtype lines st = Ok st'.
Proof.
  intros Ec. induction lines as [|line lines IH]; intros st W; simpl.
  - eauto.
  - assert (W' : table_ok to_float mol lines).
    { intros l I. apply W. right. exact I. }
    assert (L : exists st1,
               read_iso_line to_float mol iso dbtype line st = Ok st1).
    { unfold read_iso_line.
      destruct (skipped line) eqn:Sk; [eauto|].
      destruct (split_ws_first line Sk) as [head E0].
      unfold item. rewrite E0. cbn [bind].
      destruct (String.eqb head mol) eqn:Em; [|eauto].
      apply String.eqb_eq in Em. subst head.
      destruct (W line (or_introl eq_refl) Sk E0)
        as [t3 [t4 [r [m [N3 [N4 [F3 F4]]]]]]].
      rewrite Ec. cbn [bind].
      pose proof (iso_column_small _ _ Ec) as Hc.
      destruct (nth_error (split_ws line) c) as [name|] eqn:Nc.
      2:{ apply nth_error_None in Nc.
          assert (4 < List.length (split_ws line))%nat
            by (apply nth_error_Some; congruence).
          lia. }
      cbn [bind].
      destruct (py_in name iso) eqn:Ei; [|eauto].
      apply py_in_In in Ei. destruct (list_index_In _ _ Ei) as [k Ek].
      rewrite N3. cbn [bind]. rewrite Ek. cbn [bind]. rewrite F3.
      cbn [bind]. rewrite N4. cbn [bind]. rewrite F4. cbn [bind]. eauto. }
    destruct L as [st1 L]. rewrite L. cbn [bind]. apply IH. exact W'.
Qed.

Lemma read_iso_lines_app (mol : string) (iso : list string)
    (dbtype : string) (a b : list string) :
  forall st,
    read_iso_lines to_float mol iso dbtype (a ++ b) st
    = (st' <- read_iso_lines to_float mol iso dbtype a st ;;
       read_iso_lines to_float mol iso dbtype b st').
Proof.
  induction a as [|x a IH]; intro st; simpl; [reflexivity|].
  destruct (read_iso_line to_float mol iso dbtype x st) as [s|e];
    cbn [bind]; [apply IH|reflexivity].
Qed.

(** X15. When no line of the isotope file starts with the molecule, every
    abundance and every mass comes back as zero and nothing is raised,
    whatever the database type. *)
Theorem read_iso_unknown_molecule (mol : string) (iso : list string)
    (dbtype : string) (lines : list string) :
  (forall line, In line lines -> nth_error (split_ws line) 0 <> Some mol) ->
  read_iso zero to_float mol iso dbtype lines
  = Ok (repeat zero (List.length iso), repeat zero (List.length iso)).
Proof.
  unfold read_iso.
  generalize (repeat zero (List.length iso), repeat zero (List.length iso)).
  induction lines as [|line lines IH]; intros st H; simpl; [reflexivity|].
  assert (L : read_iso_line to_float mol iso dbtype line st = Ok st).
  { unfold read_iso_line.
    destruct (skipped line) eqn:Sk; [reflexivity|].
    destruct (split_ws_first line Sk) as [head E0].
    unfold item. rewrite E0. cbn [bind].
    destruct (String.eqb head mol) eqn:Em; [|reflexivity].
    apply String.eqb_eq in Em. subst head.
    exfalso. apply (H line (or_introl eq_refl) E0). }
  rewrite L. cbn [bind]. apply IH.
  intros l I. apply H. right. exact I.
Qed.

(** X16. On an isotope file whose lines for the molecule carry five tokens
    with two numbers, [read_iso] returns two arrays as long as the isotope
    list, and an isotope that no line of the molecule names keeps
    abundance zero and mass zero: a missing isotope raises nothing. *)
Theorem read_iso_missing_isotope (mol : string) (iso : list string)
    (dbtype : string) (c : nat) (lines : list string) :
  iso_column dbtype = Ok c ->
  table_ok to_float mol lines ->
  exists iratio imass,
    read_iso zero to_float mol iso dbtype lines = Ok (iratio, imass)
    /\ List.length iratio = List.length iso
    /\ List.length imass = List.length iso
    /\ forall k name,
         nth_error iso k = Some name ->
         (forall line, In line lines -> ~ names mol c name line) ->
         nth_error iratio k = Some zero /\ nth_error imass k = Some zero.
Proof.
  intros Ec W. unfold read_iso.
  destruct (read_iso_lines_total mol iso dbtype c Ec lines
              (repeat zero (List.length iso), repeat zero (List.length iso))
              W) as [[iratio imass] E].
  exists iratio, imass. split; [exact E|].
  destruct (read_iso_lines_length _ _ _ _ _ _ E) as [L1 L2].
  simpl in L1, L2. rewrite repeat_length in L1, L2.
  split; [exact L1|]. split; [exact L2|].
  intros k name Hk Hn.
  destruct (read_iso_lines_untouched mol iso dbtype c name k Ec Hk
              lines _ _ Hn E) as [U1 U2].
  simpl in U1, U2. rewrite U1, U2.
  assert (Z : nth_error (repeat zero (List.length iso)) k = Some zero).
  { apply nth_error_repeat. apply nth_error_Some. congruence. }
  split; exact Z.
Qed.

(** X17. On such a file, an isotope of the list gets the abundance and the
    mass of the last line of the molecule that names it (tokens 3 and 4),
    stored at the first position of the isotope in the list. *)
Theorem read_iso_last_entry (mol : string) (iso : list string)
    (dbtype : string) (c : nat) (pre post : list string)
    (line name : string) :
  iso_column dbtype = Ok c ->
  table_ok to_float mol (pre ++ line :: post) ->
  In name iso ->
  names mol c name line ->
  (forall l, In l post -> ~ names mol c name l) ->
  exists iratio imass k t3 t4 r m,
    read_iso zero to_float mol iso dbtype (pre ++ line :: post)
    = Ok (iratio, imass)
    /\ list_index name iso = Ok k
    /\ nth_error (split_ws line) 3 = Some t3 /\ to_float t3 = Ok r
    /\ nth_error (split_ws line) 4 = Some t4 /\ to_float t4 = Ok m
    /\ nth_error iratio k = Some r
    /\ nth_error imass k = Some m.
Proof.
  intros Ec W Hin Nm Hpost. unfold read_iso.
  set (st0 := (repeat zero (List.length iso), repeat zero (List.length iso))).
  assert (Wpre : table_ok to_float mol pre).
  { intros l I. apply W. apply in_or_app. left. exact I. }
  assert (Wpost : table_ok to_float mol post).
  { intros l I. apply W. apply in_or_app. right. right. exact I. }
  destruct (read_iso_lines_total mol iso dbtype c Ec pre st0 Wpre)
    as [st1 E1].
  destruct (list_index_In _ _ Hin) as [k Ek].
  destruct Nm as [Sk [N0 Nc]].
  assert (Il : In line (pre ++ line :: post)).
  { apply in_or_app. right. left. reflexivity. }
  destruct (W line Il Sk N0) as [t3 [t4 [r [m [N3 [N4 [F3 F4]]]]]]].
  set (st2 := (list_update (fst st1) k r, list_update (snd st1) k m)).
  assert (E2 : read_iso_line to_float mol iso dbtype line st1 = Ok st2).
  { unfold read_iso_line. rewrite Sk. unfold item. rewrite N0. cbn [bind].
    rewrite String.eqb_refl, Ec. cbn [bind]. rewrite Nc. cbn [bind].
    rewrite (proj2 (py_in_In name iso) Hin).
    rewrite N3. cbn [bind]. rewrite Ek. cbn [bind]. rewrite F3.
    cbn [bind]. rewrite N4. cbn [bind]. rewrite F4. cbn [bind].
    reflexivity. }
  destruct (read_iso_lines_total mol iso dbtype c Ec post st2 Wpost)
    as [[iratio imass] E3].
  assert (E : read_iso_lines to_float mol iso dbtype (pre ++ line :: post) st0
              = Ok (iratio, imass)).
  { rewrite read_iso_lines_app, E1. cbn [bind read_iso_lines].
    rewrite E2. cbn [bind]. exact E3. }
  exists iratio, imass, k, t3, t4, r, m.
  split; [exact E|].
  split; [exact Ek|].
  split; [exact N3|]. split; [exact F3|].
  split; [exact N4|]. split; [exact F4|].
  destruct (list_index_ok _ _ _ Ek) as [Hk _].
  destruct (read_iso_lines_untouched mol iso dbtype c name k Ec Hk
              post _ _ Hpost E3) as [U1 U2].
  simpl in U1, U2. rewrite U1, U2.
  destruct (read_iso_lines_length _ _ _ _ _ _ E1) as [L1 L2].
  unfold st0 in L1, L2. simpl in L1, L2. rewrite repeat_length in L1, L2.
  assert (k < List.length iso)%nat by (apply nth_error_Some; congruence).
  split; apply list_update_same; lia.
Qed.

(** X18. With a database type other than the two known ones, [read_iso]
    raises [UnboundLocalError] as soon as the file has a line of the
    molecule. *)
Theorem read_iso_unknown_dbtype (mol : string) (iso : list string)
    (dbtype : string) (lines : list string) (line : string) :
  dbtype <> "exomol"%string -> dbtype <> "hitran"%string ->
  In line lines ->
  skipped line = false ->
  nth_error (split_ws line) 0 = Some mol ->
  read_iso zero to_float mol iso dbtype lines = Raise UnboundLocalError.
Proof.
  intros D1 D2 I Sk N0. unfold read_iso.
  generalize (repeat zero (List.length iso), repeat zero (List.length iso)).
  assert (Ec : iso_column dbtype = Raise UnboundLocalError).
  { unfold iso_column.
    apply String.eqb_neq in D1. apply String.eqb_neq in D2.
    rewrite D1, D2. reflexivity. }
  induction lines as [|l lines IH]; intro st; [contradiction|]. simpl.
  assert (L : forall l', skipped l' = false ->
                nth_error (split_ws l') 0 = Some mol ->
                read_iso_line to_float mol iso dbtype l' st
                = Raise UnboundLocalError).
  { intros l' Sk' N0'. unfold read_iso_line. rewrite Sk'. unfold item.
    rewrite N0'. cbn [bind]. rewrite String.eqb_refl, Ec. reflexivity. }
  destruct (skipped l) eqn:Skl.
  - destruct I as [->|I]; [congruence|].
    unfold read_iso_line. rewrite Skl. cbn [bind]. apply IH. exact I.
  - destruct (split_ws_first l Skl) as [head E0].
    destruct (String.eqb head mol) eqn:Em.
    + apply String.eqb_eq in Em. subst head.
      rewrite (L l Skl E0). reflexivity.
    + destruct I as [->|I]; [apply String.eqb_neq in Em; congruence|].
      unfold read_iso_line. rewrite Skl. unfold item. rewrite E0.
      cbn [bind]. rewrite Em. cbn [bind]. apply IH. exact I.
Qed.

End ReadIsoFacts.

Lemma isotope_lines_ok : table_ok decimal "H2O" isotope_lines.
Proof.
  intros line I Sk N0. unfold isotope_lines in I. simpl in I.
  destruct I as [<-|[<-|[<-|[<-|[<-|[<-|[]]]]]]];
    try (vm_compute in Sk; discriminate);
    try (vm_compute in N0; discriminate);
    do 4 eexists; repeat split; reflexivity.
Qed.

Lemma read_iso_unknown_molecule_witness :
  (forall line, In line isotope_lines ->
     nth_error (split_ws line) 0 <> Some "CH4"%string)
  /\ read_iso 0%Q decimal "CH4" ["116"; "118"]%string "exomol" isotope_lines
     = Ok (repeat 0%Q (List.length ["116"; "118"]%string),
           repeat 0%Q (List.length ["116"; "118"]%string)).
Proof.
  assert (H : forall line, In line isotope_lines ->
                nth_error (split_ws line) 0 <> Some "CH4"%string).
  { intros line I. unfold isotope_lines in I. simpl in I.
    destruct I as [<-|[<-|[<-|[<-|[<-|[<-|[]]]]]]];
      vm_compute; discriminate. }
  split; [exact H|].
  exact (read_iso_unknown_molecule Q 0%Q decimal "CH4"
           ["116"; "118"]%string "exomol" isotope_lines H).
Defined.

Lemma read_iso_missing_isotope_witness :
  exists iratio imass,
    read_iso 0%Q decimal "H2O" ["116"; "117"; "118"]%string "exomol"
      isotope_lines = Ok (iratio, imass)
    /\ List.length iratio = List.length ["116"; "117"; "118"]%string
    /\ List.length imass = List.length ["116"; "117"; "118"]%string
    /\ forall k name,
         nth_error ["116"; "117"; "118"]%string k = Some name ->
         (forall line, In line isotope_lines ->
            ~ names "H2O" 2 name line) ->
         nth_error iratio k = Some 0%Q /\ nth_error imass k = Some 0%Q.
Proof.
  apply (read_iso_missing_isotope Q 0%Q decimal "H2O"
           ["116"; "117"; "118"]%string "exomol" 2 isotope_lines).
  - reflexivity.
  - exact isotope_lines_ok.
Defined.

Lemma read_iso_last_entry_witness :
  exists iratio imass k t3 t4 r m,
    read_iso 0%Q decimal "H2O" ["116"; "117"; "118"]%string "exomol"
      (firstn 3 isotope_lines
       ++ nth 3 isotope_lines EmptyString :: skipn 4 isotope_lines)
    = Ok (iratio, imass)
    /\ list_index "118" ["116"; "117"; "118"]%string = Ok k
    /\ nth_error (split_ws (nth 3 isotope_lines EmptyString)) 3 = Some t3
    /\ decimal t3 = Ok r
    /\ nth_error (split_ws (nth 3 isotope_lines EmptyString)) 4 = Some t4
    /\ decimal t4 = Ok m
    /\ nth_error iratio k = Some r
    /\ nth_error imass k = Some m.
Proof.
  apply (read_iso_last_entry Q 0%Q decimal "H2O"
           ["116"; "117"; "118"]%string "exomol" 2
           (firstn 3 isotope_lines) (skipn 4 isotope_lines)
           (nth 3 isotope_lines EmptyString) "118").
  - reflexivity.
  - exact isotope_lines_ok.
  - simpl. auto.
  - vm_compute. repeat split; reflexivity.
  - intros l I [Sk [N0 Nc]]. simpl in I.
    destruct I as [<-|[<-|[]]]; vm_compute in Nc; discriminate.
Defined.

Lemma read_iso_unknown_dbtype_witness :
  read_iso 0%Q decimal "H2O" ["116"; "118"]%string "hitemp" isotope_lines
  = Raise UnboundLocalError.
Proof.
  apply (read_iso_unknown_dbtype Q 0%Q decimal "H2O" ["116"; "118"]%string
           "hitemp" isotope_lines (nth 2 isotope_lines EmptyString)).
  - discriminate.
  - discriminate.
  - simpl. auto.
  - reflexivity.
  - reflexivity.
Defined.

(** The arrays read from the small isotope file for three isotopes of
    water: the second line for 116 replaces the first, 117 is not listed. *)
Example read_iso_run :
  read_iso 0%Q decimal "H2O" ["116"; "117"; "118"]%string "exomol"
    isotope_lines
  = Ok ([997 # 1000; 0; 1 # 500]%Q, [1801 # 100; 0; 50037 # 2500]%Q).
Proof. vm_compute. reflexivity. Qed.

(** ** The header of a pyrat partition-function file *)

Lemma pf_scan_plain (isotopes : option (list string)) (post : list string)
    (d : string) :
  tagged "@DATA" d ->
  forall b nskip,
    (forall l, In l b -> ~ tagged "@DATA" l /\ ~ tagged "@ISOTOPES" l) ->
    pf_scan (b ++ d :: post) isotopes nskip
    = Ok (isotopes, (nskip + List.length b + 1)%nat).
Proof.
  intro Hd. induction b as [|l b IH]; intros nskip H.
  - simpl. unfold tagged in Hd. rewrite Hd. simpl.
    do 2 f_equal. lia.
  - destruct (H l (or_introl eq_refl)) as [ND NI]. unfold tagged in ND, NI.
    simpl.
    apply String.eqb_neq in ND. apply String.eqb_neq in NI.
    rewrite ND, NI.
    assert (E : (if orb (String.eqb (strip l) "")
                        (String.prefix "#" (strip l))
                 then Ok isotopes else Ok isotopes) = Ok isotopes)
      by (destruct (orb _ _); reflexivity).
    rewrite E. cbn [bind]. rewrite IH.
    + do 2 f_equal. simpl. lia.
    + intros l' I. apply H. right. exact I.
Qed.

Lemma pf_scan_skip (rest : list string) :
  rest <> [] ->
  forall a isotopes nskip,
    (forall l, In l a -> ~ tagged "@DATA" l) ->
    exists isotopes',
      pf_scan (a ++ rest) isotopes nskip
      = pf_scan rest isotopes' (nskip + List.length a)%nat.
Proof.
  intro NE. induction a as [|l a IH]; intros isotopes nskip H.
  - exists isotopes. simpl. f_equal. lia.
  - assert (ND : ~ tagged "@DATA" l) by (apply H; left; reflexivity).
    unfold tagged in ND. apply String.eqb_neq in ND.
    assert (H' : forall l', In l' a -> ~ tagged "@DATA" l').
    { intros l' I. apply H. right. exact I. }
    simpl. rewrite ND.
    assert (E : exists i1,
               (if orb (String.eqb (strip l) "")
                       (String.prefix "#" (strip l))
                then Ok isotopes
                else if String.eqb (strip l) "@ISOTOPES" then
                  match a ++ rest with
                  | [] => Raise IndexError
                  | next :: _ => Ok (Some (split_ws (strip next)))
                  end
                else Ok isotopes) = Ok i1).
    { destruct (orb _ _); [eauto|].
      destruct (String.eqb (strip l) "@ISOTOPES"); [|eauto].
      destruct (a ++ rest) eqn:A; [|eauto].
      apply app_eq_nil in A. destruct A as [_ A]. contradiction. }
    destruct E as [i1 E]. rewrite E. cbn [bind].
    destruct (IH i1 (S nskip) H') as [i2 E2]. exists i2. rewrite E2.
    f_equal. simpl. lia.
Qed.

(** X19. In a pyrat partition-function file the header ends at the first
    line that reads [@DATA]; the isotopes are the tokens of the line that
    follows the last [@ISOTOPES] line before it, and the table has the
    lines after the [@DATA] line. *)
Theorem pf_header_spec (a b post : list string) (i d : string) :
  tagged "@ISOTOPES" i ->
  tagged "@DATA" d ->
  (forall l, In l a -> ~ tagged "@DATA" l) ->
  (forall l, In l b -> ~ tagged "@DATA" l /\ ~ tagged "@ISOTOPES" l) ->
  pf_header (a ++ i :: b ++ d :: post)
  = Ok (split_ws (strip (hd d b)),
        (List.length a + List.length b + 2)%nat,
        List.length post).
Proof.
  intros Hi Hd Ha Hb. unfold pf_header.
  destruct (pf_scan_skip (i :: b ++ d :: post) ltac:(discriminate)
              a None 0%nat Ha) as [i1 E1].
  rewrite E1. simpl pf_scan. unfold tagged in Hi. rewrite Hi.
  change (orb (String.eqb "@ISOTOPES" "")
              (String.prefix "#" "@ISOTOPES")) with false.
  change (String.eqb "@ISOTOPES" "@ISOTOPES") with true.
  change (String.eqb "@ISOTOPES" "@DATA") with false.
  cbv iota.
  assert (N : exists next rest', b ++ d :: post = next :: rest'
                                 /\ next = hd d b).
  { destruct b as [|x b']; simpl; eauto. }
  destruct N as [next [rest' [N1 N2]]]. rewrite N1. cbn [bind].
  rewrite <- N1. rewrite (pf_scan_plain _ post d Hd b _ Hb).
  cbn [bind fst snd]. subst next. f_equal. f_equal.
  - f_equal. lia.
  - rewrite !length_app. simpl. rewrite !length_app. simpl. lia.
Qed.

Lemma pf_header_spec_witness :
  tagged "@ISOTOPES" (nth 1 pyrat_lines EmptyString)
  /\ tagged "@DATA" (nth 4 pyrat_lines EmptyString)
  /\ pf_header pyrat_lines
     = Ok (["116"; "118"]%string, 5%nat, 2%nat).
Proof.
  assert (Hi : tagged "@ISOTOPES" (nth 1 pyrat_lines EmptyString))
    by reflexivity.
  assert (Hd : tagged "@DATA" (nth 4 pyrat_lines EmptyString))
    by reflexivity.
  split; [exact Hi|]. split; [exact Hd|].
  refine (pf_header_spec (firstn 1 pyrat_lines)
            (firstn 2 (skipn 2 pyrat_lines)) (skipn 5 pyrat_lines)
            _ _ Hi Hd _ _).
  - intros l I. simpl in I. destruct I as [<-|[]].
    unfold tagged. vm_compute. discriminate.
  - intros l I. simpl in I. destruct I as [<-|[<-|[]]];
      unfold tagged; split; vm_compute; discriminate.
Defined.

(** X20. A file in which no line reads [@DATA] makes the header loop run
    off the end of the file: [IndexError], whatever else the file
    holds. *)
Theorem pf_header_no_data (lines : list string) :
  (forall l, In l lines -> ~ tagged "@DATA" l) ->
  pf_header lines = Raise IndexError.
Proof.
  intro H. unfold pf_header.
  assert (E : forall isotopes nskip,
             pf_scan lines isotopes nskip = Raise IndexError).
  { induction lines as [|l lines IH]; intros isotopes nskip; simpl;
      [reflexivity|].
    assert (ND : ~ tagged "@DATA" l) by (apply H; left; reflexivity).
    unfold tagged in ND. apply String.eqb_neq in ND. rewrite ND.
    assert (IH' : forall isotopes nskip,
               pf_scan lines isotopes nskip = Raise IndexError).
    { apply IH. intros l' I. apply H. right. exact I. }
    destruct (orb _ _); cbn [bind]; [apply IH'|].
    destruct (String.eqb (strip l) "@ISOTOPES"); cbn [bind]; [|apply IH'].
    destruct lines; cbn [bind]; [reflexivity|apply IH']. }
  rewrite E. reflexivity.
Qed.

Lemma pf_header_no_data_witness :
  pf_header (firstn 4 pyrat_lines) = Raise IndexError.
Proof.
  apply (pf_header_no_data (firstn 4 pyrat_lines)).
  intros l I. simpl in I.
  destruct I as [<-|[<-|[<-|[<-|[]]]]]; unfold tagged; vm_compute;
    discriminate.
Defined.

(** X21. When the first [@DATA] line comes with no [@ISOTOPES] line
    before it, the isotopes are never bound and taking their number raises
    [UnboundLocalError]. *)
Theorem pf_header_no_isotopes (b post : list string) (d : string) :
  tagged "@DATA" d ->
  (forall l, In l b -> ~ tagged "@DATA" l /\ ~ tagged "@ISOTOPES" l) ->
  pf_header (b ++ d :: post) = Raise UnboundLocalError.
Proof.
  intros Hd Hb. unfold pf_header.
  rewrite (pf_scan_plain None post d Hd b 0%nat Hb). reflexivity.
Qed.

Lemma pf_header_no_isotopes_witness :
  pf_header (firstn 1 pyrat_lines ++ nth 4 pyrat_lines EmptyString
             :: skipn 5 pyrat_lines)
  = Raise UnboundLocalError.
Proof.
  apply (pf_header_no_isotopes (firstn 1 pyrat_lines)
           (skipn 5 pyrat_lines) (nth 4 pyrat_lines EmptyString)).
  - reflexivity.
  - intros l I. simpl in I. destruct I as [<-|[]].
    unfold tagged. split; vm_compute; discriminate.
Defined.
